(** * Log analytics: streaming line search of [log_analytics_screen.py]

    A shallow embedding of [LogAnalyzerThread] (the chunked file scan, the
    directory walk, the cooperative stop flag) and of the three handlers of
    [LogAnalyticsScreen] that start a search and display its results,
    followed by the properties established about them.

    Modelling conventions.
    - Text is a list of characters.  A file's content is the character
      stream that [open(path, 'r', encoding='utf-8', errors='ignore')]
      delivers, i.e. after decoding and newline translation.
    - [re.compile], [regex.search] and [str.lower] belong to the Python
      library; the scan is parametrised by them.
    - [self._running] is written by another thread.  The flag only ever goes
      from [True] to [False], so an interleaving is determined by the number
      of reads of the flag that still see [True]: a [clock].
    - An exception is a [None]/flag result, threaded explicitly. *)

From Stdlib Require Import String Ascii DecimalString List NArith Arith Lia Bool.
Import ListNotations.

Set Implicit Arguments.

(** ** Text *)

Definition text := list ascii.

Definition txt (s : string) : text := list_ascii_of_string s.

Definition nl : ascii := "010"%char.

(** [s.split(sep)] for a one-character separator: never the empty list. *)
Fixpoint split (sep : ascii) (s : text) : list text :=
  match s with
  | [] => [[]]
  | c :: r =>
      if Ascii.eqb c sep then [] :: split sep r
      else match split sep r with
           | h :: t => (c :: h) :: t
           | [] => [[c]]
           end
  end.

(** [sep.join(parts)] *)
Fixpoint join (sep : text) (parts : list text) : text :=
  match parts with
  | [] => []
  | [p] => p
  | p :: rest => p ++ sep ++ join sep rest
  end.

(** [s.startswith(p)] and [p in s] *)
Fixpoint starts_with (p s : text) : bool :=
  match p, s with
  | [], _ => true
  | _ :: _, [] => false
  | a :: p', b :: s' => Ascii.eqb a b && starts_with p' s'
  end.

Fixpoint contains (p s : text) : bool :=
  starts_with p s ||
  match s with
  | [] => false
  | _ :: s' => contains p s'
  end.

Definition ends_with (suffix s : text) : bool :=
  starts_with (rev suffix) (rev s).

(** [str(n)] for a non-negative integer. *)
Definition str (n : nat) : text :=
  txt (NilEmpty.string_of_uint (Nat.to_uint n)).

(** The f-string [f"{line_number}: {line}"]. *)
Definition render (line_number : nat) (line : text) : text :=
  str line_number ++ txt ": " ++ line.

(** ** Files *)

(** [f.read(n)] on the remaining characters: up to [n] of them. *)
Fixpoint take (n : N) (s : text) : text :=
  match s with
  | [] => []
  | c :: r => if (n =? 0)%N then [] else c :: take (N.pred n) r
  end.

Fixpoint drop (n : N) (s : text) : text :=
  match s with
  | [] => []
  | c :: r => if (n =? 0)%N then s else drop (N.pred n) r
  end.

(** The non-empty results of successive [f.read(cs)] on a text. *)
Fixpoint chunks_upto (fuel : nat) (cs : N) (s : text) : list text :=
  match fuel, s with
  | S fuel', _ :: _ =>
      if (cs =? 0)%N then [] else take cs s :: chunks_upto fuel' cs (drop cs s)
  | _, _ => []
  end.

Definition chunks (cs : N) (s : text) : list text :=
  chunks_upto (length s) cs s.

#[local] Set Warnings "-register-all".

(** What a path denotes.  [fail_in = Some k]: the read number [k]
    (counting from 0) of the file raises [OSError]. *)
Inductive node :=
| File (content : text) (fail_in : option nat)
| Denied
| Dir (entries : list (text * node)).

Record handle := { rest : text; fail_in : option nat }.

(** [open(file_path, 'r', ...)]: [None] when it raises (missing path,
    permission, directory). *)
Definition open (target : option node) : option handle :=
  match target with
  | Some (File content fail) => Some {| rest := content; fail_in := fail |}
  | _ => None
  end.

Definition read (n : N) (f : handle) : option (text * handle) :=
  match fail_in f with
  | Some 0 => None
  | Some (S k) => Some (take n (rest f), {| rest := drop n (rest f); fail_in := Some k |})
  | None => Some (take n (rest f), {| rest := drop n (rest f); fail_in := None |})
  end.

(** ** The stop flag *)

(** [None]: [stop()] is never called.  [Some k]: exactly the next [k] reads
    of [self._running] still see [True]. *)
Definition clock := option nat.

Definition running (k : clock) : bool * clock :=
  match k with
  | None => (true, None)
  | Some 0 => (false, Some 0)
  | Some (S n) => (true, Some n)
  end.

(** ** The Python library the scan calls *)

(** [re_compile p = None] when [re.compile(p)] raises [re.error];
    [re_search r line] is the truth value of [r.search(line)];
    [lower] is [str.lower]. *)
Record pylib := {
  regex : Type;
  re_compile : text -> option regex;
  re_search : regex -> text -> bool;
  lower : text -> text
}.

(** ** LogAnalyzerThread *)

Record LogAnalyzerThread := {
  file_path : text;
  pattern : text;
  is_regex : bool;
  is_directory : bool
}.

Inductive signal :=
| progress (message : text)
| finished (results : list text).

(** The local variables of [_analyze_file].  [seen] is a ghost trace: the
    value of [line_number] and the line at every [line_number += 1]. *)
Record locals := {
  buffer : text;
  line_number : nat;
  results : list text;
  seen : list (nat * text)
}.

(** [chunk_size = 1024 * 1024] *)
Definition chunk_size : N := 1024 * 1024.

Section Thread.

Variable L : pylib.

(** The size passed to [f.read]; the source fixes it to [chunk_size]. *)
Variable cs : N.

Variable self : LogAnalyzerThread.

(** [if self.is_regex: regex = re.compile(self.pattern)]: [None] when it
    raises, otherwise the binding of the local [regex] (unbound in literal
    mode). *)
Definition compile_pattern : option (option (regex L)) :=
  if is_regex self then
    match re_compile L (pattern self) with
    | Some r => Some (Some r)
    | None => None
    end
  else Some None.

(** The test guarding [results.append]. *)
Definition line_matches (rx : option (regex L)) (line : text) : bool :=
  if is_regex self then
    match rx with
    | Some r => re_search L r line
    | None => false
    end
  else contains (lower L (pattern self)) (lower L line).

(** One line: [line_number += 1], then the guarded append. *)
Definition visit (rx : option (regex L)) (st : locals) (line : text) : locals :=
  let n := S (line_number st) in
  {| buffer := buffer st;
     line_number := n;
     results := if line_matches rx line
                then results st ++ [render n line] else results st;
     seen := seen st ++ [(n, line)] |}.

(** The body of the [while] loop after a non-empty read. *)
Definition feed (rx : option (regex L)) (st : locals) (chunk : text) : locals :=
  let lines := split nl (buffer st ++ chunk) in
  fold_left (visit rx) (removelast lines)
    {| buffer := last lines [];
       line_number := line_number st;
       results := results st;
       seen := seen st |}.

(** [while self._running: ...].  The result is [(raised, clock, locals)];
    [None] only when [fuel] runs out. *)
Fixpoint while_running (fuel : nat) (rx : option (regex L)) (f : handle)
    (k : clock) (st : locals) : option (bool * clock * locals) :=
  match fuel with
  | 0 => None
  | S fuel' =>
      let (go, k1) := running k in
      if go then
        match read cs f with
        | None => Some (true, k1, st)
        | Some ([], _) => Some (false, k1, st)
        | Some (chunk, f1) => while_running fuel' rx f1 k1 (feed rx st chunk)
        end
      else Some (false, k1, st)
  end.

(** [if buffer and self._running: ...] *)
Definition flush (rx : option (regex L)) (k : clock) (st : locals) : clock * locals :=
  match buffer st with
  | [] => (k, st)
  | _ :: _ =>
      let (go, k1) := running k in
      if go then (k1, visit rx st (buffer st)) else (k1, st)
  end.

Definition initial : locals :=
  {| buffer := []; line_number := 0; results := []; seen := [] |}.

(** [_analyze_file], on what [file_path] denotes.  Every exception is
    caught by the function's own handler, which returns [results] as it
    stands. *)
Definition _analyze_file (target : option node) (k : clock)
    : option (locals * clock) :=
  match compile_pattern with
  | None => Some (initial, k)
  | Some rx =>
      match open target with
      | None => Some (initial, k)
      | Some f =>
          match while_running (S (length (rest f))) rx f k initial with
          | None => None
          | Some (true, k1, st) => Some (st, k1)
          | Some (false, k1, st) =>
              let (k2, st') := flush rx k1 st in Some (st', k2)
          end
      end
  end.

(** [Path(self.file_path).glob("*" + suffix)]: the matching entries of the
    directory itself, in the order the system lists them. *)
Definition glob (suffix : text) (target : option node) : list (text * node) :=
  match target with
  | Some (Dir entries) => filter (fun e => ends_with suffix (fst e)) entries
  | _ => []
  end.

(** [for log_file in log_files: ...] *)
Fixpoint for_log_files (log_files : list (text * node)) (k : clock)
    (acc : list text) (out : list signal)
    : option (list text * list signal * clock) :=
  match log_files with
  | [] => Some (acc, out, k)
  | (name, nd) :: more =>
      let (go, k1) := running k in
      if go then
        match _analyze_file (Some nd) k1 with
        | None => None
        | Some (st, k2) =>
            for_log_files more k2 (acc ++ results st)
              (out ++ [progress (txt "Processing " ++ name ++ txt "...")])
        end
      else Some (acc, out, k1)
  end.

(** [run]: the signals emitted, in order. *)
Definition run (target : option node) (k : clock) : option (list signal * clock) :=
  if is_directory self then
    let log_files := glob (txt ".log") target ++ glob (txt ".txt") target in
    match for_log_files log_files k [] [] with
    | None => None
    | Some (res, out, k1) => Some (out ++ [finished res], k1)
    end
  else
    match _analyze_file target k with
    | None => None
    | Some (st, k1) =>
        Some ([progress (txt "Processing file..."); finished (results st)], k1)
    end.

End Thread.

(** ** LogAnalyticsScreen *)

(** The widgets the handlers touch.  [results_text] is the sequence of
    pieces given to [setText] (which restarts it) and [appendText]. *)
Record LogAnalyticsScreen := {
  path_input : text;
  pattern_input : text;
  regex_checkbox : bool;
  status_label : text;
  results_text : list text;
  search_button : bool;
  cancel_button : bool;
  _analyzer_thread : option LogAnalyzerThread
}.

Section Screen.

(** [fs p] is what the path [p] denotes, [None] when nothing is there. *)
Variable fs : text -> option node.

Definition exists_ (p : text) : bool :=
  match fs p with Some _ => true | None => false end.

Definition isdir (p : text) : bool :=
  match fs p with Some (Dir _) => true | _ => false end.

Definition is_empty (s : text) : bool :=
  match s with [] => true | _ :: _ => false end.

Definition set_status (scr : LogAnalyticsScreen) (s : text) : LogAnalyticsScreen :=
  {| path_input := path_input scr;
     pattern_input := pattern_input scr;
     regex_checkbox := regex_checkbox scr;
     status_label := s;
     results_text := results_text scr;
     search_button := search_button scr;
     cancel_button := cancel_button scr;
     _analyzer_thread := _analyzer_thread scr |}.

(** [_on_search_clicked]: the screen afterwards and the thread it started,
    if any. *)
Definition _on_search_clicked (scr : LogAnalyticsScreen)
    : LogAnalyticsScreen * option LogAnalyzerThread :=
  let file_path := path_input scr in
  let pattern := pattern_input scr in
  if is_empty file_path || is_empty pattern then
    (set_status scr
       (txt "Error: Please select a file/directory and enter a pattern"), None)
  else if negb (exists_ file_path) then
    (set_status scr (txt "Error: Path does not exist"), None)
  else
    let t := {| file_path := file_path;
                pattern := pattern;
                is_regex := regex_checkbox scr;
                is_directory := isdir file_path |} in
    ({| path_input := path_input scr;
        pattern_input := pattern_input scr;
        regex_checkbox := regex_checkbox scr;
        status_label := txt "Analyzing...";
        results_text := [txt "Searching..." ++ [nl]];
        search_button := false;
        cancel_button := true;
        _analyzer_thread := Some t |}, Some t).

End Screen.

(** [_on_analysis_finished] *)
Definition _on_analysis_finished (scr : LogAnalyticsScreen) (results : list text)
    : LogAnalyticsScreen :=
  let n := length results in
  match results with
  | _ :: _ =>
      {| path_input := path_input scr;
         pattern_input := pattern_input scr;
         regex_checkbox := regex_checkbox scr;
         status_label :=
           txt "Analysis complete: " ++ str n ++ txt " matches found";
         results_text :=
           [txt "Found " ++ str n ++ txt " matches:" ++ [nl; nl];
            join [nl] (firstn 1000 results)]
           ++ (if 1000 <? n
               then [[nl; nl] ++ txt "... and " ++ str (n - 1000)
                       ++ txt " more matches"]
               else []);
         search_button := true;
         cancel_button := false;
         _analyzer_thread := _analyzer_thread scr |}
  | [] =>
      {| path_input := path_input scr;
         pattern_input := pattern_input scr;
         regex_checkbox := regex_checkbox scr;
         status_label := txt "Analysis complete: No matches found";
         results_text := [txt "No matches found"];
         search_button := true;
         cancel_button := false;
         _analyzer_thread := _analyzer_thread scr |}
  end.

(** ** Reference descriptions used in the statements *)

(** The lines of a text taken whole: the fragments of one split on the
    newline, the last one only when it is not empty. *)
Definition whole_lines (s : text) : list text :=
  let parts := split nl s in
  removelast parts ++
  match last parts [] with
  | [] => []
  | frag => [frag]
  end.

(** The fragments of a text that a newline terminates. *)
Definition complete_lines (s : text) : list text :=
  removelast (split nl s).

(** Lines with their 1-based position. *)
Definition numbered (ls : list text) : list (nat * text) :=
  combine (seq 1 (length ls)) ls.

(** The records of the numbered lines that the thread's test accepts. *)
Definition matching (L : pylib) (self : LogAnalyzerThread)
    (rx : option (regex L)) (ls : list (nat * text)) : list text :=
  map (fun p => render (fst p) (snd p))
      (filter (fun p => line_matches L self rx (snd p)) ls).

(** The binding of the local [regex] of [_analyze_file]. *)
Definition bound_regex (L : pylib) (self : LogAnalyzerThread) : option (regex L) :=
  match compile_pattern L self with
  | Some rx => rx
  | None => None
  end.

(** The records [_analyze_file] returns for a directory entry. *)
Definition scan_results (L : pylib) (cs : N) (self : LogAnalyzerThread)
    (nd : node) (k : clock) : list text :=
  match _analyze_file L cs self (Some nd) k with
  | Some (st, _) => results st
  | None => []
  end.

(** What a never-stopped scan is expected to return for a directory entry:
    nothing for an entry that cannot be opened, the records of the complete
    lines of the first [j] chunks when the read number [j] fails, and the
    records of all the lines otherwise. *)
Definition expected_yield (L : pylib) (cs : N) (self : LogAnalyzerThread)
    (rx : option (regex L)) (nd : node) : list text :=
  match nd with
  | File content (Some j) =>
      if j <=? length (chunks cs content)
      then matching L self rx
             (numbered (complete_lines (concat (firstn j (chunks cs content)))))
      else matching L self rx (numbered (whole_lines content))
  | File content None => matching L self rx (numbered (whole_lines content))
  | Denied => []
  | Dir _ => []
  end.

(** The reads of [self._running] that the scan of a directory entry makes
    when it is never stopped: one before each chunk, one before the read
    that ends the loop (the empty chunk, or the read that raises), and one
    for the flush when the text read ends in an unterminated fragment.  An
    entry that cannot be opened, or a pattern that does not compile, leaves
    before the flag is read. *)
Definition flag_reads (L : pylib) (cs : N) (self : LogAnalyzerThread)
    (nd : node) : nat :=
  match compile_pattern L self, nd with
  | Some _, File content fl =>
      let chs := chunks cs content in
      let carry := match last (split nl (concat chs)) [] with
                   | [] => 0
                   | _ :: _ => 1
                   end in
      match fl with
      | Some j => if j <=? length chs then S j else S (length chs) + carry
      | None => S (length chs) + carry
      end
  | _, _ => 0
  end.

(** The matches found in the first [k] chunks of an entry: the records of
    the complete lines of the text those chunks hold. *)
Definition stopped_yield (L : pylib) (cs : N) (self : LogAnalyzerThread)
    (nd : node) (k : nat) : list text :=
  match nd with
  | File content _ =>
      matching L self (bound_regex L self)
        (numbered (complete_lines (concat (firstn k (chunks cs content)))))
  | _ => []
  end.

(** The entries a directory scan visits, in order. *)
Definition visits (target : option node) : list (text * node) :=
  glob (txt ".log") target ++ glob (txt ".txt") target.

(** The progress signal emitted before an entry is scanned. *)
Definition announce (e : text * node) : signal :=
  progress (txt "Processing " ++ fst e ++ txt "...").

(** How a run ended, read off its last signal: [finished] closes the [try]
    body, an error message is the last word of its handler. *)
Inductive job_state :=
| Completed (results : list text)
| Failed (message : text)
| Silent.

Definition terminal_state (out : list signal) : job_state :=
  match rev out with
  | finished res :: _ => Completed res
  | progress msg :: _ => Failed msg
  | [] => Silent
  end.

(** The records the display body shows: its pieces between newlines. *)
Definition shown_records (scr : LogAnalyticsScreen) : list text :=
  match results_text scr with
  | _ :: body :: _ => split nl body
  | _ => []
  end.

(** A record without a newline in it. *)
Definition newline_free (r : text) : bool :=
  negb (existsb (Ascii.eqb nl) r).

(** The remainder notice, when the display has one. *)
Definition remainder_notice (scr : LogAnalyticsScreen) : option text :=
  match results_text scr with
  | _ :: _ :: notice :: _ => Some notice
  | _ => None
  end.

(** Lexical order on names, by character code. *)
Fixpoint lex_le (a b : text) : bool :=
  match a, b with
  | [], _ => true
  | _ :: _, [] => false
  | x :: a', y :: b' =>
      (nat_of_ascii x <? nat_of_ascii y) ||
      ((nat_of_ascii x =? nat_of_ascii y) && lex_le a' b')
  end.

Fixpoint lex_sorted (names : list text) : bool :=
  match names with
  | a :: (b :: _) as more => lex_le a b && lex_sorted more
  | _ => true
  end.

(** ** A concrete library for the examples *)

(** [str.lower] on ASCII letters. *)
Definition ascii_lower (c : ascii) : ascii :=
  let n := nat_of_ascii c in
  if (65 <=? n) && (n <=? 90) then ascii_of_nat (n + 32) else c.

Definition is_meta (c : ascii) : bool :=
  existsb (Ascii.eqb c) (txt ".^$*+?{}[]\|()").

(** A fragment of [re]: a pattern without metacharacters compiles and
    searches for itself as a substring; the pattern ["("] does not compile
    ([re.error]: missing closing parenthesis).  Other patterns are outside
    the fragment and are not used. *)
Definition sample_lib : pylib :=
  {| regex := text;
     re_compile := fun p => if existsb is_meta p then None else Some p;
     re_search := fun r line => contains r line;
     lower := map ascii_lower |}.

(** ** The state after a prefix of the chunks *)

(** The locals of [_analyze_file] once the text [consumed] has been read
    and split: the carry buffer is its unterminated tail, the lines seen are
    its complete lines. *)
Definition state_of (L : pylib) (self : LogAnalyzerThread)
    (rx : option (regex L)) (consumed : text) : locals :=
  {| buffer := last (split nl consumed) [];
     line_number := length (complete_lines consumed);
     results := matching L self rx (numbered (complete_lines consumed));
     seen := numbered (complete_lines consumed) |}.

(** The locals once the end-of-stream flush has emitted the carry too. *)
Definition flushed (L : pylib) (self : LogAnalyzerThread)
    (rx : option (regex L)) (c : text) : locals :=
  {| buffer := last (split nl c) [];
     line_number := length (whole_lines c);
     results := matching L self rx (numbered (whole_lines c));
     seen := numbered (whole_lines c) |}.

(** With [m] chunks in the file, a read failing at [fl] and a stop clock
    [k]: how many chunks the loop folds in, and how it ends. *)
Definition bound (o : option nat) (m : nat) : nat :=
  match o with
  | Some x => Nat.min x m
  | None => m
  end.

Definition reach (m : nat) (fl : option nat) (k : clock) : nat :=
  bound k (bound fl m).

Definition exit_of (m : nat) (fl : option nat) (k : clock) : bool * clock :=
  match k, fl with
  | None, None => (false, None)
  | None, Some j => if j <=? m then (true, None) else (false, None)
  | Some t, None => if t <=? m then (false, Some 0) else (false, Some (t - S m))
  | Some t, Some j =>
      if (t <=? j) && (t <=? m) then (false, Some 0)
      else if j <=? m then (true, Some (t - S j))
      else (false, Some (t - S m))
  end.

(** ** Inputs for the examples *)

Definition demo_literal : LogAnalyzerThread :=
  {| file_path := txt "app.log"; pattern := txt "error";
     is_regex := false; is_directory := false |}.

Definition demo_text : text :=
  txt "alpha" ++ [nl] ++ txt "BETA error" ++ [nl] ++ txt "gamma".

(** A directory scan for the literal [err]. *)
Definition demo_walk : LogAnalyzerThread :=
  {| file_path := txt "logs"; pattern := txt "err";
     is_regex := false; is_directory := true |}.

(** Two files, listed in lexical order. *)
Definition lexical_dir : list (text * node) :=
  [(txt "a.txt", File (txt "err in a" ++ [nl]) None);
   (txt "b.log", File (txt "err in b" ++ [nl]) None)].

(** Two readable files around one that cannot be opened, and a
    subdirectory whose content is not looked at. *)
Definition mixed_dir : list (text * node) :=
  [(txt "a.log", File (txt "err 1" ++ [nl] ++ txt "fine" ++ [nl]) None);
   (txt "bad.log", Denied);
   (txt "old", Dir [(txt "deep.log", File (txt "err deep" ++ [nl]) None)]);
   (txt "c.txt", File (txt "quiet" ++ [nl] ++ txt "err 2") None)].


(** A file system with one file and one directory. *)
Definition demo_fs (p : text) : option node :=
  if list_eq_dec ascii_dec p (txt "app.log") then Some (File demo_text None)
  else if list_eq_dec ascii_dec p (txt "logs") then Some (Dir mixed_dir)
  else None.

(** A screen about to search [app.log] for the regex ["("]. *)
Definition bad_regex_screen : LogAnalyticsScreen :=
  {| path_input := txt "app.log";
     pattern_input := txt "(";
     regex_checkbox := true;
     status_label := txt "Ready";
     results_text := [];
     search_button := true;
     cancel_button := false;
     _analyzer_thread := None |}.

(** A screen whose pattern field is empty, and one whose path is not there. *)
Definition empty_pattern_screen : LogAnalyticsScreen :=
  {| path_input := txt "app.log";
     pattern_input := [];
     regex_checkbox := false;
     status_label := txt "Ready";
     results_text := [];
     search_button := true;
     cancel_button := false;
     _analyzer_thread := None |}.

Definition missing_path_screen : LogAnalyticsScreen :=
  {| path_input := txt "gone.log";
     pattern_input := txt "error";
     regex_checkbox := false;
     status_label := txt "Ready";
     results_text := [];
     search_button := true;
     cancel_button := false;
     _analyzer_thread := None |}.

(** 1500 records. *)
Definition many_records : list text :=
  map (fun n => render n (txt "error")) (seq 1 1500).

From Stdlib Require Import ZArith.

(** ** The other handlers of LogAnalyticsScreen *)

(** A Python [dict] with string keys, in insertion order. *)
Fixpoint dict_get (A : Type) (d : list (text * A)) (k : text) : option A :=
  match d with
  | [] => None
  | (k', v) :: more =>
      if list_eq_dec ascii_dec k k' then Some v else dict_get more k
  end.

(** The items of [preset_combo]. *)
Definition preset_items : list text :=
  [txt "Custom";
   txt "Error Messages";
   txt "Warning Messages";
   txt "Exception Stack Traces";
   txt "Database Queries";
   txt "HTTP Requests";
   txt "Email Addresses";
   txt "IP Addresses";
   txt "Timestamps"].

(** [self._preset_patterns]: name to (pattern, is_regex). *)
Definition _preset_patterns : list (text * (text * bool)) :=
  [(txt "Error Messages", (txt "\b(error|ERROR|Error)\b", true));
   (txt "Warning Messages", (txt "\b(warning|WARNING|Warning|warn|WARN)\b", true));
   (txt "Exception Stack Traces", (txt "Exception|Traceback|at \w+\.\w+\(", true));
   (txt "Database Queries", (txt "(SELECT|INSERT|UPDATE|DELETE|CREATE|DROP)\b", true));
   (txt "HTTP Requests", (txt "(GET|POST|PUT|DELETE|PATCH)\s+/\S+", true));
   (txt "Email Addresses",
    (txt "\b[A-Za-z0-9._%+-]+@[A-Za-z0-9.-]+\.[A-Z|a-z]{2,}\b", true));
   (txt "IP Addresses", (txt "\b(?:\d{1,3}\.){3}\d{1,3}\b", true));
   (txt "Timestamps", (txt "\d{4}-\d{2}-\d{2}\s+\d{2}:\d{2}:\d{2}", true))].

(** [_on_preset_changed] *)
Definition _on_preset_changed (scr : LogAnalyticsScreen) (preset : text)
    : LogAnalyticsScreen :=
  match dict_get _preset_patterns preset with
  | Some (pattern, is_regex) =>
      {| path_input := path_input scr;
         pattern_input := pattern;
         regex_checkbox := is_regex;
         status_label := status_label scr;
         results_text := results_text scr;
         search_button := search_button scr;
         cancel_button := cancel_button scr;
         _analyzer_thread := _analyzer_thread scr |}
  | None => scr
  end.

(** [_on_cancel_clicked]; [is_running] is what [isRunning()] answers.  The
    result says whether [stop()] was called (and waited for). *)
Definition _on_cancel_clicked (is_running : bool) (scr : LogAnalyticsScreen)
    : LogAnalyticsScreen * bool :=
  match _analyzer_thread scr with
  | Some _ =>
      if is_running then
        ({| path_input := path_input scr;
            pattern_input := pattern_input scr;
            regex_checkbox := regex_checkbox scr;
            status_label := txt "Analysis cancelled";
            results_text := results_text scr;
            search_button := true;
            cancel_button := false;
            _analyzer_thread := _analyzer_thread scr |}, true)
      else (scr, false)
  | None => (scr, false)
  end.

(** [_on_analysis_progress] *)
Definition _on_analysis_progress (scr : LogAnalyticsScreen) (message : text)
    : LogAnalyticsScreen :=
  set_status scr message.

(** ** BaseScreen, as LogAnalyticsScreen inherits it *)

(** The screen object: the flag of [BaseScreen] and the widgets, which
    exist once [setup_ui] has run. *)
Record screen_object := {
  _initialized : bool;
  widgets : option LogAnalyticsScreen
}.

(** [setup_ui]: the widgets as they are created. *)
Definition setup_ui (s : screen_object) : screen_object :=
  {| _initialized := _initialized s;
     widgets := Some {| path_input := [];
                        pattern_input := [];
                        regex_checkbox := false;
                        status_label := txt "Ready";
                        results_text := [];
                        search_button := true;
                        cancel_button := false;
                        _analyzer_thread := None |} |}.

(** [load_data]; [None] when the widgets do not exist yet
    ([AttributeError]). *)
Definition load_data (s : screen_object) : option screen_object :=
  match widgets s with
  | Some scr =>
      Some {| _initialized := _initialized s;
              widgets :=
                Some {| path_input := path_input scr;
                        pattern_input := pattern_input scr;
                        regex_checkbox := regex_checkbox scr;
                        status_label := status_label scr;
                        results_text :=
                          [txt "No results yet. Select a log file and search pattern."];
                        search_button := search_button scr;
                        cancel_button := cancel_button scr;
                        _analyzer_thread := _analyzer_thread scr |} |}
  | None => None
  end.

(** [BaseScreen.initialize] *)
Definition initialize (s : screen_object) : option screen_object :=
  if _initialized s then Some s
  else
    match load_data (setup_ui s) with
    | Some s' => Some {| _initialized := true; widgets := widgets s' |}
    | None => None
    end.

(** [BaseScreen.refresh] *)
Definition refresh (s : screen_object) : option screen_object :=
  if _initialized s then load_data s else Some s.

(** A screen object as constructed. *)
Definition new_screen : screen_object :=
  {| _initialized := false; widgets := None |}.

(** The number of newline characters of a text. *)
Definition newlines (s : text) : nat := count_occ ascii_dec s nl.

(** ** Inputs for the further examples *)

Definition ready_screen : LogAnalyticsScreen :=
  {| path_input := txt "app.log";
     pattern_input := txt "error";
     regex_checkbox := false;
     status_label := txt "Ready";
     results_text := [];
     search_button := true;
     cancel_button := false;
     _analyzer_thread := None |}.

(** A target none of whose files, itself or its direct entries, fails on a
    read. *)
Definition read_safe (nd : node) : bool :=
  match nd with
  | File _ (Some _) => false
  | _ => true
  end.

Definition steady (target : node) : bool :=
  match target with
  | Dir entries => forallb (fun e => read_safe (snd e)) entries
  | nd => read_safe nd
  end.

(** The three-line file of the end-to-end scenario. *)
Definition scenario_text : text :=
  txt "alpha" ++ [nl] ++ txt "BETA error" ++ [nl] ++ txt "gamma" ++ [nl].

Definition scenario_fs (p : text) : option node :=
  if list_eq_dec ascii_dec p (txt "app.log") then Some (File scenario_text None)
  else None.

(** * The other modules *)

(** ** Dictionaries *)

(** [d[k] = v]: the value of an existing key is replaced where it stands, a
    new key goes to the end. *)
Fixpoint dict_set (A : Type) (d : list (text * A)) (k : text) (v : A)
    : list (text * A) :=
  match d with
  | [] => [(k, v)]
  | (k', v') :: more =>
      if list_eq_dec ascii_dec k k' then (k', v) :: more
      else (k', v') :: dict_set more k v
  end.

(** [d.get(k, default)] *)
Definition dict_get_or (A : Type) (d : list (text * A)) (k : text) (default : A) : A :=
  match dict_get d k with
  | Some v => v
  | None => default
  end.

(** ** XMLHelperScreen._count_tags *)

(** An [ET.Element]: its tag and its children. *)
Inductive Element :=
| Elem (tag : text) (children : list Element).

(** [_count_tags(element, counts)]: the dictionary afterwards. *)
Fixpoint _count_tags (element : Element) (counts : list (text * nat))
    : list (text * nat) :=
  match element with
  | Elem tag children =>
      fold_left (fun c child => _count_tags child c) children
        (dict_set counts tag (dict_get_or counts tag 0 + 1))
  end.

(** The elements of a tree that carry a tag, and all of them. *)
Fixpoint occurrences (tag : text) (e : Element) : nat :=
  match e with
  | Elem t children =>
      (if list_eq_dec ascii_dec tag t then 1 else 0)
      + list_sum (map (occurrences tag) children)
  end.

Fixpoint elements (e : Element) : nat :=
  match e with
  | Elem _ children => 1 + list_sum (map elements children)
  end.

(** Induction on an element with the property for all its children. *)
Fixpoint Element_induction (P : Element -> Prop)
    (step : forall tag children, Forall P children -> P (Elem tag children))
    (e : Element) : P e :=
  match e with
  | Elem tag children =>
      step tag children
        ((fix all (l : list Element) : Forall P l :=
            match l with
            | [] => Forall_nil P
            | x :: r => Forall_cons x (Element_induction step x) (all r)
            end) children)
  end.

(** ** TableModel and DataTable *)

Module TableModel.
Section Cells.

(** What a cell holds. *)
Variable cell : Type.

Record model := {
  _data : list (list cell);
  _headers : list text
}.

(** [TableModel(data, headers)]: [data or []], [headers or []]. *)
Definition init (data : option (list (list cell))) (headers : option (list text))
    : model :=
  {| _data := match data with Some d => d | None => [] end;
     _headers := match headers with Some h => h | None => [] end |}.

Definition rowCount (m : model) : nat := length (_data m).

Definition columnCount (m : model) : nat :=
  match _headers m with
  | _ :: _ => length (_headers m)
  | [] => match _data m with
          | row :: _ => length row
          | [] => 0
          end
  end.

(** [setData(data, headers)]: [if headers:] skips [None] and the empty
    list. *)
Definition setData (m : model) (data : list (list cell))
    (headers : option (list text)) : model :=
  {| _data := data;
     _headers := match headers with
                 | Some (h :: more) => h :: more
                 | _ => _headers m
                 end |}.

Definition appendRow (m : model) (row : list cell) : model :=
  {| _data := _data m ++ [row]; _headers := _headers m |}.

Definition clear (m : model) : model :=
  {| _data := []; _headers := _headers m |}.

(** [DataTable.getRowData(row)], for any integer. *)
Definition getRowData (m : model) (row : Z) : list cell :=
  if ((0 <=? row) && (row <? Z.of_nat (length (_data m))))%Z
  then nth (Z.to_nat row) (_data m) []
  else [].

End Cells.
End TableModel.

(** ** ConversionJob *)

Module JobModel.
Section Times.

(** [datetime] values. *)
Variable datetime : Type.

Record JobError := {
  timestamp : datetime;
  message : text;
  details : text;
  stack_trace : text
}.

Record BatchInfo := {
  batch_id : text;
  total_items : Z;
  processed_items : Z;
  failed_items : Z;
  start_time : option datetime;
  end_time : option datetime
}.

(** The fields of [ConversionJob] that its counting properties read. *)
Record ConversionJob := {
  job_id : text;
  name : text;
  errors : list JobError;
  batches : list BatchInfo
}.

Definition has_errors (j : ConversionJob) : bool := 0 <? length (errors j).

Definition total_batches (j : ConversionJob) : nat := length (batches j).

(** [sum(1 for batch in self.batches if batch.end_time is not None)] *)
Definition completed_batches (j : ConversionJob) : nat :=
  list_sum (map (fun _ => 1)
                (filter (fun b => match end_time b with Some _ => true | None => false end)
                        (batches j))).

End Times.
End JobModel.

(** ** PluginManager *)

(** [del d[k]] *)
Fixpoint dict_del (A : Type) (d : list (text * A)) (k : text) : list (text * A) :=
  match d with
  | [] => []
  | (k', v) :: more =>
      if list_eq_dec ascii_dec k k' then more else (k', v) :: dict_del more k
  end.

Module PluginManager.
Section Plugins.

(** Plugin instances. *)
Variable plugin : Type.

(** [_plugins] is a dict; [_enabled_plugins] is a set, kept as a list whose
    order means nothing. *)
Record manager := {
  _plugins : list (text * plugin);
  _enabled_plugins : list text
}.

Definition init : manager := {| _plugins := []; _enabled_plugins := [] |}.

Definition mem (name : text) (s : list text) : bool :=
  if in_dec (list_eq_dec ascii_dec) name s then true else false.

(** [s.add(name)] and [s.discard(name)] *)
Definition add (name : text) (s : list text) : list text :=
  if mem name s then s else name :: s.

Definition discard (name : text) (s : list text) : list text :=
  filter (fun n => if list_eq_dec ascii_dec n name then false else true) s.

(** What importing the plugin file and instantiating its class comes to:
    nothing stored (file missing, no spec, the module raises, no plugin
    class, the constructor raises), or the instance stored, [logged]
    telling whether the log line that reads its name and version went
    through. *)
Inductive load_outcome :=
| NotLoaded
| Stored (p : plugin) (logged : bool).

Definition load_plugin (m : manager) (plugin_name : text) (o : load_outcome)
    : manager * bool :=
  match o with
  | NotLoaded => (m, false)
  | Stored p logged =>
      ({| _plugins := dict_set (_plugins m) plugin_name p;
          _enabled_plugins := _enabled_plugins m |}, logged)
  end.

(** [cleanup_ok]: [plugin.cleanup()] returns without raising. *)
Definition unload_plugin (m : manager) (plugin_name : text) (cleanup_ok : bool)
    : manager * bool :=
  match dict_get (_plugins m) plugin_name with
  | None => (m, false)
  | Some _ =>
      if cleanup_ok then
        ({| _plugins := dict_del (_plugins m) plugin_name;
            _enabled_plugins := discard plugin_name (_enabled_plugins m) |}, true)
      else (m, false)
  end.

(** [initialize_ok]: [plugin.initialize(app_context)] returns without
    raising. *)
Definition enable_plugin (m : manager) (plugin_name : text) (o : load_outcome)
    (initialize_ok : bool) : manager * bool :=
  let (m1, go) :=
    match dict_get (_plugins m) plugin_name with
    | None => load_plugin m plugin_name o
    | Some _ => (m, true)
    end in
  if go then
    match dict_get (_plugins m1) plugin_name with
    | Some _ =>
        if initialize_ok then
          ({| _plugins := _plugins m1;
              _enabled_plugins := add plugin_name (_enabled_plugins m1) |}, true)
        else (m1, false)
    | None => (m1, false)
    end
  else (m1, false).

Definition disable_plugin (m : manager) (plugin_name : text) : manager * bool :=
  if mem plugin_name (_enabled_plugins m) then
    ({| _plugins := _plugins m;
        _enabled_plugins := discard plugin_name (_enabled_plugins m) |}, true)
  else (m, false).

Definition get_plugin (m : manager) (plugin_name : text) : option plugin :=
  dict_get (_plugins m) plugin_name.

Definition get_enabled_plugins (m : manager) : list plugin :=
  flat_map (fun name => match dict_get (_plugins m) name with
                        | Some p => [p]
                        | None => []
                        end) (_enabled_plugins m).

Definition get_all_plugins (m : manager) : list plugin :=
  map snd (_plugins m).

(** A call on the manager, with what the plugin code does during it. *)
Inductive call :=
| Load (plugin_name : text) (o : load_outcome)
| Unload (plugin_name : text) (cleanup_ok : bool)
| Enable (plugin_name : text) (o : load_outcome) (initialize_ok : bool)
| Disable (plugin_name : text).

Definition perform (m : manager) (c : call) : manager :=
  match c with
  | Load n o => fst (load_plugin m n o)
  | Unload n ok => fst (unload_plugin m n ok)
  | Enable n o ok => fst (enable_plugin m n o ok)
  | Disable n => fst (disable_plugin m n)
  end.

End Plugins.
End PluginManager.

(** What every state of the manager satisfies: no name is loaded or enabled
    twice, and the enabled names are names of loaded plugins. *)
Definition plugins_consistent (plugin : Type) (m : PluginManager.manager plugin)
    : Prop :=
  NoDup (map fst (PluginManager._plugins m)) /\
  NoDup (PluginManager._enabled_plugins m) /\
  Forall (fun n => dict_get (PluginManager._plugins m) n <> None)
         (PluginManager._enabled_plugins m).

(** ** Settings *)

(** [l[n] = x] on a list used as a store; nothing happens out of range. *)
Fixpoint update (A : Type) (l : list A) (n : nat) (x : A) : list A :=
  match l, n with
  | [], _ => []
  | _ :: r, 0 => x :: r
  | y :: r, S n' => y :: update r n' x
  end.

Module Settings.

(** A Python value as settings hold them.  A dict is an object: [VDict a]
    is a reference to the dict stored at address [a], so that two
    references to one dict see each other's changes. *)
Inductive pyval :=
| VNone
| VBool (b : bool)
| VInt (z : Z)
| VStr (s : text)
| VList (items : list pyval)
| VDict (a : nat).

Definition dict := list (text * pyval).

(** The dict objects, by address. *)
Definition heap := list dict.

Record settings := {
  store : heap;
  _settings : pyval;
  _defaults : nat
}.

(** The dict a value refers to, when it is a dict. *)
Definition as_dict (h : heap) (v : pyval) : option dict :=
  match v with
  | VDict a => nth_error h a
  | _ => None
  end.

(** [d.copy()]: a new dict object with the same bindings, the values
    shared. *)
Definition copy (h : heap) (a : nat) : heap * pyval :=
  (h ++ [match nth_error h a with Some d => d | None => [] end],
   VDict (length h)).

(** The loop of [get] over the keys. *)
Fixpoint get_walk (h : heap) (value : pyval) (keys : list text)
    (default : pyval) : pyval :=
  match keys with
  | [] => value
  | k :: more =>
      match as_dict h value with
      | Some d =>
          match dict_get d k with
          | Some v => get_walk h v more default
          | None => default
          end
      | None => default
      end
  end.

(** [get(key, default)] *)
Definition get (s : settings) (key : text) (default : pyval) : pyval :=
  get_walk (store s) (_settings s) (split "."%char key) default.

(** The loop of [set] over [keys[:-1]] followed by the final assignment.
    The flag is [false] when a [TypeError] is raised: [k not in settings],
    [settings[k]] and [settings[k] = ...] with a string key all end in one
    on a value that is not a dict. *)
Fixpoint set_walk (h : heap) (settings : pyval) (keys : list text)
    (last_key : text) (v : pyval) : heap * bool :=
  match keys with
  | [] =>
      match settings with
      | VDict a =>
          match nth_error h a with
          | Some d => (update h a (dict_set d last_key v), true)
          | None => (h, false)
          end
      | _ => (h, false)
      end
  | k :: more =>
      match settings with
      | VDict a =>
          match nth_error h a with
          | Some d =>
              match dict_get d k with
              | Some next => set_walk h next more last_key v
              | None =>
                  let a' := length h in
                  set_walk (update h a (dict_set d k (VDict a')) ++ [[]])
                    (VDict a') more last_key v
              end
          | None => (h, false)
          end
      | _ => (h, false)
      end
  end.

(** [set(key, value)]: the settings afterwards and whether the call
    returned. *)
Definition set (s : settings) (key : text) (v : pyval) : settings * bool :=
  let keys := split "."%char key in
  let (h, ok) := set_walk (store s) (_settings s) (removelast keys)
                   (last keys []) v in
  ({| store := h; _settings := _settings s; _defaults := _defaults s |}, ok).

(** [reset()] *)
Definition reset (s : settings) : settings :=
  let (h, v) := copy (store s) (_defaults s) in
  {| store := h; _settings := v; _defaults := _defaults s |}.

(** [load()] when the settings file is absent or cannot be read or parsed:
    both branches take a copy of the defaults. *)
Definition load_defaults (s : settings) : settings := reset s.

(** The object as [__init__] has it before it calls [load()]: the dicts
    of the [_defaults] literal and the empty [_settings]. *)
Definition constructed : settings :=
  {| store :=
       [ [(txt "width", VInt 1280); (txt "height", VInt 720);
          (txt "maximized", VBool false)];
         [(txt "type", VStr (txt "sqlite")); (txt "path", VStr [])];
         [(txt "window", VDict 0);
          (txt "theme", VStr (txt "light"));
          (txt "log_level", VStr (txt "INFO"));
          (txt "plugins_enabled", VBool true);
          (txt "recent_files", VList []);
          (txt "database", VDict 1)];
         [] ];
     _settings := VDict 3;
     _defaults := 2 |}.

(** [Settings(settings_file)] when there is no settings file to read. *)
Definition init : settings := load_defaults constructed.

(** Whether a value is a dict. *)
Definition is_dict (v : pyval) : bool :=
  match v with
  | VDict _ => true
  | _ => false
  end.

(** A call that changes the settings; [set] is given a value that is not
    itself a dict object. *)
Inductive call :=
| Set_ (key : text) (v : pyval)
| Reset.

Definition allowed (c : call) : bool :=
  match c with
  | Set_ _ v => negb (is_dict v)
  | Reset => true
  end.

Definition perform (s : settings) (c : call) : settings :=
  match c with
  | Set_ key v => fst (set s key v)
  | Reset => reset s
  end.

(** The value a sequence of existing keys leads to. *)
Fixpoint lookup_path (h : heap) (v : pyval) (keys : list text) : option pyval :=
  match keys with
  | [] => Some v
  | k :: more =>
      match as_dict h v with
      | Some d =>
          match dict_get d k with
          | Some next => lookup_path h next more
          | None => None
          end
      | None => None
      end
  end.

(** Every reference kept in a dict leads to a dict of higher rank: the
    store has no cycle of dicts. *)
Definition ranked (h : heap) (rank : nat -> nat) : Prop :=
  forall a d k b,
    nth_error h a = Some d -> dict_get d k = Some (VDict b) ->
    b < length h /\ rank a < rank b.

Definition acyclic (h : heap) : Prop := exists rank, ranked h rank.

(** A key without a dot. *)
Definition dot_free (k : text) : bool := negb (existsb (Ascii.eqb "."%char) k).

End Settings.

(** * Properties *)

(** ** Splitting *)

Lemma split_not_nil (sep : ascii) (s : text) : split sep s <> [].
Proof.
  destruct s as [|c r]; simpl; [discriminate|].
  destruct (Ascii.eqb c sep); [discriminate|].
  destruct (split sep r); discriminate.
Qed.

Lemma removelast_cons2 (A : Type) (x y : A) (l : list A) :
  removelast (x :: y :: l) = x :: removelast (y :: l).
Proof. reflexivity. Qed.

Lemma last_cons2 (A : Type) (x y : A) (l : list A) (d : A) :
  last (x :: y :: l) d = last (y :: l) d.
Proof. reflexivity. Qed.

Lemma split_app (sep : ascii) (a b : text) :
  split sep (a ++ b) =
  removelast (split sep a) ++ split sep (last (split sep a) [] ++ b).
Proof.
  induction a as [|c r IH]; [reflexivity|].
  cbn [app split].
  destruct (Ascii.eqb c sep) eqn:E.
  - rewrite IH.
    destruct (split sep r) as [|h t] eqn:S; [now apply split_not_nil in S|].
    reflexivity.
  - rewrite IH.
    destruct (split sep r) as [|h [|t1 t2]] eqn:S.
    + now apply split_not_nil in S.
    + cbn [removelast last app split]. now rewrite E.
    + rewrite !removelast_cons2, !last_cons2. reflexivity.
Qed.

Lemma last_app_not_nil (A : Type) (l1 l2 : list A) (d : A) :
  l2 <> [] -> last (l1 ++ l2) d = last l2 d.
Proof.
  intros H. destruct l2 as [|x l2] using rev_ind; [easy|].
  now rewrite app_assoc, !last_last.
Qed.

Lemma split_app_last (a b : text) :
  last (split nl (a ++ b)) [] = last (split nl (last (split nl a) [] ++ b)) [].
Proof. rewrite split_app. apply last_app_not_nil, split_not_nil. Qed.

Lemma complete_lines_app (a b : text) :
  complete_lines (a ++ b) =
  complete_lines a ++ complete_lines (last (split nl a) [] ++ b).
Proof.
  unfold complete_lines. rewrite split_app.
  apply removelast_app, split_not_nil.
Qed.

(** ** Reading *)

Lemma take_drop (n : N) (s : text) : take n s ++ drop n s = s.
Proof.
  revert n. induction s as [|c r IH]; intros n; simpl; [reflexivity|].
  destruct (n =? 0)%N; simpl; [reflexivity|]. now rewrite IH.
Qed.

Lemma drop_length (n : N) (s : text) : length (drop n s) <= length s.
Proof.
  revert n. induction s as [|c r IH]; intros n; simpl; [lia|].
  destruct (n =? 0)%N; simpl; [lia|]. specialize (IH (N.pred n)). lia.
Qed.

Lemma drop_shorter (n : N) (c : ascii) (r : text) :
  n <> 0%N -> length (drop n (c :: r)) < length (c :: r).
Proof.
  intros H. simpl. destruct (N.eqb_spec n 0); [easy|].
  pose proof (drop_length (N.pred n) r). lia.
Qed.

Lemma chunks_upto_enough (cs : N) (fuel : nat) (s : text) :
  length s <= fuel -> chunks_upto fuel cs s = chunks cs s.
Proof.
  unfold chunks. revert s.
  induction fuel as [fuel IH] using lt_wf_ind. intros s Hs.
  destruct s as [|c r]; [now destruct fuel|].
  destruct fuel as [|fuel]; [simpl in Hs; lia|].
  cbn [length chunks_upto].
  destruct (N.eqb_spec cs 0); [reflexivity|].
  f_equal.
  pose proof (drop_shorter c r n) as Hd. cbn [length] in *.
  rewrite (IH fuel) by lia.
  symmetry. apply IH; lia.
Qed.

Lemma chunks_nil (cs : N) : chunks cs [] = [].
Proof. reflexivity. Qed.

Lemma chunks_cons (cs : N) (c : ascii) (r : text) :
  cs <> 0%N ->
  chunks cs (c :: r) = take cs (c :: r) :: chunks cs (drop cs (c :: r)).
Proof.
  intros H. unfold chunks at 1. cbn [length chunks_upto].
  destruct (N.eqb_spec cs 0); [easy|].
  f_equal. apply chunks_upto_enough.
  pose proof (drop_shorter c r H). cbn [length] in *. lia.
Qed.

Lemma chunks_zero (s : text) : chunks 0 s = [].
Proof. unfold chunks. now destruct s. Qed.

Lemma concat_chunks (cs : N) (s : text) :
  cs <> 0%N -> concat (chunks cs s) = s.
Proof.
  intros H. remember (length s) as n eqn:Hn. revert s Hn.
  induction n as [n IH] using lt_wf_ind. intros s ->.
  destruct s as [|c r]; [reflexivity|].
  rewrite chunks_cons by assumption. cbn [concat].
  rewrite (IH (length (drop cs (c :: r)))); [apply take_drop| |reflexivity].
  now apply drop_shorter.
Qed.

(** ** Numbering and matching *)

Lemma combine_app_eq (A B : Type) (a1 a2 : list A) (b1 b2 : list B) :
  length a1 = length b1 ->
  combine (a1 ++ a2) (b1 ++ b2) = combine a1 b1 ++ combine a2 b2.
Proof.
  revert b1. induction a1 as [|x a1 IH]; intros [|y b1] H;
    simpl in *; try discriminate; [reflexivity|].
  f_equal. apply IH. now injection H.
Qed.

Lemma numbered_app (a b : list text) :
  numbered (a ++ b) = numbered a ++ combine (seq (S (length a)) (length b)) b.
Proof.
  unfold numbered. rewrite length_app, seq_app.
  rewrite combine_app_eq by now rewrite length_seq.
  reflexivity.
Qed.

Lemma matching_app (L : pylib) (self : LogAnalyzerThread)
    (rx : option (regex L)) (a b : list (nat * text)) :
  matching L self rx (a ++ b) = matching L self rx a ++ matching L self rx b.
Proof. unfold matching. now rewrite filter_app, map_app. Qed.

Lemma numbered_length (ls : list text) : length (numbered ls) = length ls.
Proof. unfold numbered. rewrite length_combine, length_seq. lia. Qed.

Lemma numbered_fst (ls : list text) : map fst (numbered ls) = seq 1 (length ls).
Proof.
  unfold numbered. generalize 1.
  induction ls as [|l ls IH]; intros n; simpl; [reflexivity|].
  now rewrite IH.
Qed.

Lemma numbered_snd (ls : list text) : map snd (numbered ls) = ls.
Proof.
  unfold numbered. generalize 1.
  induction ls as [|l ls IH]; intros n; simpl; [reflexivity|].
  now rewrite IH.
Qed.

(** ** The chunk loop *)

(** A loop that ends at once: no chunk is folded in. *)
Ltac loop_ends :=
  rewrite ?chunks_zero, ?chunks_nil;
  cbn [take drop N.eqb length reach bound Nat.min firstn concat exit_of
       Nat.leb Nat.sub andb];
  rewrite ?Nat.min_0_r, ?Nat.min_0_l; cbn [firstn concat];
  rewrite ?app_nil_r, ?Nat.sub_0_r, ?andb_false_r; reflexivity.

Section Loop.

Variable L : pylib.
Variable cs : N.
Variable self : LogAnalyzerThread.
Variable rx : option (regex L).

Lemma fold_visit (ls : list text) (st : locals) :
  fold_left (visit L self rx) ls st =
  let block := combine (seq (S (line_number st)) (length ls)) ls in
  {| buffer := buffer st;
     line_number := line_number st + length ls;
     results := results st ++ matching L self rx block;
     seen := seen st ++ block |}.
Proof.
  revert st. induction ls as [|l ls IH]; intros st; cbn [fold_left].
  - destruct st; cbn. now rewrite Nat.add_0_r, !app_nil_r.
  - rewrite IH. cbn -[line_matches render]. f_equal.
    + lia.
    + unfold matching.
      destruct (line_matches L self rx l); cbn [map fst snd];
        now rewrite <- ?app_assoc.
    + now rewrite <- app_assoc.
Qed.

(** Folding one more chunk into the state of a prefix gives the state of
    the longer prefix. *)
Lemma feed_state_of (c chunk : text) :
  feed L self rx (state_of L self rx c) chunk = state_of L self rx (c ++ chunk).
Proof.
  unfold feed. rewrite fold_visit. unfold state_of.
  cbn [buffer line_number results seen].
  fold (complete_lines (last (split nl c) [] ++ chunk)).
  rewrite (complete_lines_app c chunk), numbered_app, matching_app, length_app.
  now rewrite <- split_app_last.
Qed.

Lemma initial_state_of : initial = state_of L self rx [].
Proof. reflexivity. Qed.

Lemma take_nil_iff (s : text) : cs <> 0%N -> take cs s = [] -> s = [].
Proof.
  intros H. destruct s as [|c r]; [easy|]. simpl.
  now destruct (N.eqb_spec cs 0).
Qed.

(** The loop, for every stop clock and every failing read: it folds in the
    first [reach] chunks and ends as [exit_of] says. *)
Lemma while_running_spec (fuel : nat) (r : text) (fl : option nat)
    (k : clock) (c : text) :
  length r < fuel ->
  let m := length (chunks cs r) in
  while_running L cs self fuel rx {| rest := r; fail_in := fl |} k
    (state_of L self rx c) =
  Some (exit_of m fl k,
        state_of L self rx (c ++ concat (firstn (reach m fl k) (chunks cs r)))).
Proof.
  revert r fl k c. induction fuel as [|fuel IH]; intros r fl k c Hlen; [lia|].
  cbn zeta. cbn [while_running].
  destruct k as [[|t]|]; cbn [running].
  - (* the stop is already visible *)
    unfold reach. cbn [bound Nat.min firstn concat].
    rewrite app_nil_r. now destruct fl as [j|].
  - (* this read of the flag and [t] more see True *)
    unfold read. cbn [fail_in rest].
    destruct fl as [[|j]|]; [loop_ends| |];
      (destruct r as [|a r']; [loop_ends|]);
      (destruct (N.eqb_spec cs 0) as [->|Hcs]; [loop_ends|]);
      (destruct (take cs (a :: r')) as [|x chunk] eqn:Htake;
         [now apply take_nil_iff in Htake|]);
      rewrite feed_state_of, <- Htake;
      (rewrite IH by (pose proof (drop_shorter a r' Hcs); lia));
      rewrite chunks_cons by assumption;
      cbn [length reach bound Nat.min firstn concat exit_of Nat.leb Nat.sub];
      now rewrite app_assoc.
  - (* never stopped *)
    unfold read. cbn [fail_in rest].
    destruct fl as [[|j]|]; [loop_ends| |];
      (destruct r as [|a r']; [loop_ends|]);
      (destruct (N.eqb_spec cs 0) as [->|Hcs]; [loop_ends|]);
      (destruct (take cs (a :: r')) as [|x chunk] eqn:Htake;
         [now apply take_nil_iff in Htake|]);
      rewrite feed_state_of, <- Htake;
      (rewrite IH by (pose proof (drop_shorter a r' Hcs); lia));
      rewrite chunks_cons by assumption;
      cbn [length reach bound Nat.min firstn concat exit_of Nat.leb Nat.sub];
      now rewrite app_assoc.
Qed.

End Loop.

(** ** One file *)

Section OneFile.

Variable L : pylib.
Variable cs : N.
Variable self : LogAnalyzerThread.

Lemma whole_lines_complete (c : text) :
  last (split nl c) [] = [] -> whole_lines c = complete_lines c.
Proof.
  intros H. unfold whole_lines, complete_lines. cbn zeta.
  now rewrite H, app_nil_r.
Qed.

Lemma whole_lines_carry (c : text) :
  last (split nl c) [] <> [] ->
  whole_lines c = complete_lines c ++ [last (split nl c) []].
Proof.
  intros H. unfold whole_lines, complete_lines. cbn zeta.
  now destruct (last (split nl c) []).
Qed.

Lemma visit_carry (rx : option (regex L)) (c : text) :
  last (split nl c) [] <> [] ->
  visit L self rx (state_of L self rx c) (last (split nl c) []) = flushed L self rx c.
Proof.
  intros H. unfold visit, flushed, state_of.
  cbn [buffer line_number results seen].
  rewrite (whole_lines_carry c H), numbered_app, matching_app, length_app.
  cbn [length seq combine].
  f_equal; [lia|].
  unfold matching. cbn [filter snd].
  now destruct (line_matches L self rx (last (split nl c) []));
    cbn [map fst snd]; rewrite ?app_nil_r.
Qed.

Lemma flushed_no_carry (rx : option (regex L)) (c : text) :
  last (split nl c) [] = [] -> flushed L self rx c = state_of L self rx c.
Proof.
  intros H. unfold flushed, state_of. now rewrite (whole_lines_complete c H).
Qed.

(** [if buffer and self._running] on the state of a prefix. *)
Lemma flush_spec (rx : option (regex L)) (k : clock) (c : text) :
  flush L self rx k (state_of L self rx c) =
  match last (split nl c) [] with
  | [] => (k, state_of L self rx c)
  | _ :: _ =>
      if fst (running k) then (snd (running k), flushed L self rx c)
      else (snd (running k), state_of L self rx c)
  end.
Proof.
  unfold flush. cbn [buffer state_of].
  destruct (last (split nl c) []) as [|x frag] eqn:E; [reflexivity|].
  destruct (running k) as [go k1]. cbn [fst snd].
  destruct go; [|reflexivity].
  rewrite <- E. rewrite visit_carry; [reflexivity|]. now rewrite E.
Qed.

(** An unstopped flush emits the carry when there is one. *)
Lemma flush_never_stopped (rx : option (regex L)) (c : text) :
  flush L self rx None (state_of L self rx c) = (None, flushed L self rx c).
Proof.
  rewrite flush_spec.
  destruct (last (split nl c) []) eqn:E; [|reflexivity].
  now rewrite flushed_no_carry.
Qed.

(** A flush that finds the stop set emits nothing. *)
Lemma flush_stopped (rx : option (regex L)) (c : text) :
  flush L self rx (Some 0) (state_of L self rx c) =
  (Some 0, state_of L self rx c).
Proof.
  rewrite flush_spec. now destruct (last (split nl c) []).
Qed.

(** [_analyze_file] on a regular file, in closed form. *)
Lemma analyze_file_spec (rx : option (regex L)) (content : text)
    (fl : option nat) (k : clock) :
  compile_pattern L self = Some rx ->
  _analyze_file L cs self (Some (File content fl)) k =
  let chs := chunks cs content in
  let st := state_of L self rx
              (concat (firstn (reach (length chs) fl k) chs)) in
  match exit_of (length chs) fl k with
  | (true, k1) => Some (st, k1)
  | (false, k1) => let (k2, st') := flush L self rx k1 st in Some (st', k2)
  end.
Proof.
  intros Hrx. unfold _analyze_file. rewrite Hrx. cbn [open rest].
  rewrite (initial_state_of L self rx).
  rewrite while_running_spec by lia. cbn zeta. cbn [app].
  now destruct (exit_of _ fl k) as [[|] k1].
Qed.

(** [_analyze_file] always returns. *)
Lemma analyze_file_total (target : option node) (k : clock) :
  exists st k', _analyze_file L cs self target k = Some (st, k').
Proof.
  destruct (compile_pattern L self) as [rx|] eqn:Hrx.
  - destruct target as [[content fl| |entries]|];
      try (unfold _analyze_file; rewrite Hrx; cbn [open]; eauto; fail).
    rewrite (analyze_file_spec content fl k Hrx). cbn zeta.
    destruct (exit_of _ fl k) as [[|] k1]; eauto.
    destruct (flush _ _ _ _ _) as [k2 st']. eauto.
  - unfold _analyze_file. rewrite Hrx. eauto.
Qed.

End OneFile.

(** ** Reconstruction *)

Lemma unlines_split (s : text) :
  concat (map (fun l => l ++ [nl]) (complete_lines s)) ++ last (split nl s) [] = s.
Proof.
  unfold complete_lines. induction s as [|c r IH]; [reflexivity|].
  cbn [split]. destruct (Ascii.eqb_spec c nl) as [->|Hc].
  - destruct (split nl r) as [|h t] eqn:S; [now apply split_not_nil in S|].
    rewrite removelast_cons2, last_cons2. cbn [map concat app].
    now rewrite IH.
  - destruct (split nl r) as [|h [|t1 t2]] eqn:S.
    + now apply split_not_nil in S.
    + cbn in *. now rewrite <- IH.
    + rewrite removelast_cons2, last_cons2 in *. cbn [map concat app] in *.
      now rewrite IH.
Qed.

Lemma unlines_whole_lines (s : text) :
  concat (map (fun l => l ++ [nl]) (whole_lines s)) =
  s ++ match last (split nl s) [] with [] => [] | _ :: _ => [nl] end.
Proof.
  destruct (last (split nl s) []) as [|x frag] eqn:E.
  - rewrite whole_lines_complete by assumption.
    pose proof (unlines_split s) as U. rewrite E in U.
    now rewrite app_nil_r in *.
  - rewrite whole_lines_carry by now rewrite E.
    rewrite map_app, concat_app. cbn [map concat]. rewrite app_nil_r, app_assoc.
    now rewrite unlines_split.
Qed.

(** C1.  For every text and every chunk size of at least one character, the
    chunked scan of a readable file that is never stopped sees exactly the
    lines of the text split whole on the newline, in order (a trailing empty
    fragment counted by neither), its records are those of the matching
    lines among them, and the lines seen, each followed by a newline,
    spell the text again with nothing lost or repeated (up to the newline
    that an unterminated last line lacks). *)
Theorem C1_chunked_scan_sees_whole_lines (L : pylib) (self : LogAnalyzerThread)
    (cs : N) (content : text) (rx : option (regex L)) :
  (1 <= cs)%N ->
  compile_pattern L self = Some rx ->
  exists st,
    _analyze_file L cs self (Some (File content None)) None = Some (st, None) /\
    map snd (seen st) = whole_lines content /\
    results st = matching L self rx (numbered (whole_lines content)) /\
    concat (map (fun l => l ++ [nl]) (map snd (seen st))) =
      content ++ match buffer st with [] => [] | _ :: _ => [nl] end.
Proof.
  intros Hcs Hrx. exists (flushed L self rx content).
  rewrite (analyze_file_spec L cs self content None None Hrx). cbn zeta.
  cbn [exit_of reach bound]. rewrite firstn_all, concat_chunks by lia.
  rewrite flush_never_stopped. cbn [flushed seen results buffer].
  rewrite numbered_snd. repeat split. apply unlines_whole_lines.
Qed.

Lemma C1_witness :
  exists st,
    _analyze_file sample_lib 3 demo_literal (Some (File demo_text None)) None
      = Some (st, None) /\
    map snd (seen st) = whole_lines demo_text /\
    results st = matching sample_lib demo_literal None (numbered (whole_lines demo_text)) /\
    concat (map (fun l => l ++ [nl]) (map snd (seen st))) =
      demo_text ++ match buffer st with [] => [] | _ :: _ => [nl] end.
Proof.
  apply (@C1_chunked_scan_sees_whole_lines sample_lib demo_literal 3 demo_text None);
    [lia | reflexivity].
Defined.

(** Every scan ends in the state of the numbered lines of some text, its
    complete lines or all of them. *)
Lemma scan_shape (L : pylib) (cs : N) (self : LogAnalyzerThread)
    (target : option node) (k : clock) :
  exists st k' ls c,
    _analyze_file L cs self target k = Some (st, k') /\
    seen st = numbered ls /\
    line_number st = length ls /\
    results st = matching L self (bound_regex L self) (numbered ls) /\
    (ls = complete_lines c \/ ls = whole_lines c).
Proof.
  unfold bound_regex.
  destruct (compile_pattern L self) as [rx|] eqn:Hrx.
  - destruct target as [[content fl| |entries]|];
      try (unfold _analyze_file; rewrite Hrx; cbn [open];
           exists initial, k, [], []; repeat split; auto; fail).
    rewrite (analyze_file_spec L cs self content fl k Hrx). cbn zeta.
    set (c := concat _).
    destruct (exit_of _ fl k) as [[|] k1].
    + exists (state_of L self rx c), k1, (complete_lines c), c.
      repeat split; auto.
    + rewrite flush_spec.
      destruct (last (split nl c) []) eqn:E;
        [exists (state_of L self rx c), k1, (complete_lines c), c;
         repeat split; auto|].
      destruct (fst (running k1)).
      * exists (flushed L self rx c), (snd (running k1)), (whole_lines c), c.
        repeat split; auto.
      * exists (state_of L self rx c), (snd (running k1)), (complete_lines c), c.
        repeat split; auto.
  - unfold _analyze_file. rewrite Hrx.
    exists initial, k, [], []. repeat split; auto.
Qed.

(** C4.  Whatever the file, the stop clock and the pattern, [_analyze_file]
    returns, and the line numbers it gave to the n lines it saw are exactly
    1, 2, ..., n in that order; [line_number] ends at n; the records
    returned are those of the matching lines among them, with these
    numbers.  The line emitted by the end-of-stream flush is one of them. *)
Theorem C4_line_numbers_sequential (L : pylib) (cs : N)
    (self : LogAnalyzerThread) (target : option node) (k : clock) :
  exists st k',
    _analyze_file L cs self target k = Some (st, k') /\
    map fst (seen st) = seq 1 (length (seen st)) /\
    line_number st = length (seen st) /\
    results st = matching L self (bound_regex L self) (seen st).
Proof.
  destruct (scan_shape L cs self target k)
    as (st & k' & ls & c & H & Hs & Hn & Hr & _).
  exists st, k'. rewrite Hs, numbered_fst, numbered_length. now repeat split.
Qed.

(** ** Stopping within a file *)

Lemma firstn_concat_prefix (t : nat) (chs : list text) :
  concat chs = concat (firstn t chs) ++ concat (skipn t chs).
Proof. now rewrite <- concat_app, firstn_skipn. Qed.

(** The complete lines of a prefix of a text begin those of the text. *)
Lemma complete_lines_prefix (a b : text) :
  exists more,
    numbered (complete_lines (a ++ b)) = numbered (complete_lines a) ++ more.
Proof. rewrite complete_lines_app, numbered_app. eauto. Qed.

(** C10.  When the stop lands before the chunk stream of a readable file is
    exhausted, that is within the reads of [self._running] that precede the
    end-of-stream test ([t] of them still see [True], with [t] at most one
    more than the number of chunks), the scan returns with the flush
    skipped: the lines seen are exactly the newline-terminated lines of the
    chunks read before the stop was observed, all of them complete lines of
    the file, and the records returned are those of the matching ones; the
    unterminated last fragment is never emitted, whether or not it was read
    in full and matches. *)
Theorem C10_stop_skips_final_fragment (L : pylib) (cs : N)
    (self : LogAnalyzerThread) (content : text) (rx : option (regex L))
    (t : nat) :
  compile_pattern L self = Some rx ->
  t <= S (length (chunks cs content)) ->
  exists st,
    let read_so_far := concat (firstn t (chunks cs content)) in
    _analyze_file L cs self (Some (File content None)) (Some t)
      = Some (st, Some 0) /\
    seen st = numbered (complete_lines read_so_far) /\
    results st = matching L self rx (numbered (complete_lines read_so_far)) /\
    (exists more, numbered (complete_lines content) = seen st ++ more).
Proof.
  intros Hrx Ht. cbn zeta.
  assert (Hpre : forall chs, chs = chunks cs content ->
            exists more, numbered (complete_lines content) =
              numbered (complete_lines (concat (firstn t chs))) ++ more).
  { intros chs Hchs. destruct (N.eqb_spec cs 0) as [->|Hcs].
    - subst chs. rewrite chunks_zero, firstn_nil. cbn [concat].
      apply (complete_lines_prefix [] content).
    - pose proof (concat_chunks content Hcs) as Hc. rewrite <- Hchs in Hc.
      clear Hchs. rewrite <- Hc, (firstn_concat_prefix t chs).
      apply complete_lines_prefix. }
  specialize (Hpre _ eq_refl).
  set (chs := chunks cs content) in *.
  exists (state_of L self rx (concat (firstn t chs))).
  rewrite (analyze_file_spec L cs self content None (Some t) Hrx). cbn zeta.
  fold chs. cbn [exit_of reach bound].
  destruct (Nat.leb_spec t (length chs)) as [Hle|Hgt].
  - rewrite Nat.min_l by assumption. rewrite flush_stopped. now repeat split.
  - assert (t = S (length chs)) as -> by lia.
    rewrite Nat.min_r by lia. rewrite Nat.sub_diag, flush_stopped.
    rewrite firstn_all in *. rewrite firstn_all2 in * by lia. now repeat split.
Qed.

Lemma C10_witness :
  exists st,
    let read_so_far := concat (firstn 1 (chunks chunk_size demo_text)) in
    _analyze_file sample_lib chunk_size demo_literal
      (Some (File demo_text None)) (Some 1) = Some (st, Some 0) /\
    seen st = numbered (complete_lines read_so_far) /\
    results st = matching sample_lib demo_literal None
                   (numbered (complete_lines read_so_far)) /\
    (exists more, numbered (complete_lines demo_text) = seen st ++ more).
Proof.
  apply (@C10_stop_skips_final_fragment sample_lib chunk_size demo_literal
           demo_text None 1); [reflexivity | vm_compute; lia].
Defined.

(** ** The match test *)

Lemma starts_with_iff (p s : text) :
  starts_with p s = true <-> exists post, s = p ++ post.
Proof.
  revert s. induction p as [|a p IH]; intros s; cbn [starts_with].
  - split; [intros _; now exists s|reflexivity].
  - destruct s as [|b s].
    + split; [discriminate|]. now intros [post H].
    + rewrite andb_true_iff, IH. split.
      * intros [Hab [post ->]]. apply Ascii.eqb_eq in Hab. subst.
        now exists post.
      * intros [post H]. injection H as -> ->. rewrite Ascii.eqb_refl.
        split; [reflexivity|now exists post].
Qed.

Lemma contains_iff (p s : text) :
  contains p s = true <-> exists pre post, s = pre ++ p ++ post.
Proof.
  induction s as [|b s IH]; cbn [contains]; rewrite orb_true_iff, starts_with_iff.
  - split.
    + intros [[post H]|H]; [|discriminate]. now exists [], post.
    + intros (pre & post & H). left.
      destruct pre; [now exists post|discriminate].
  - rewrite IH. split.
    + intros [[post H]|(pre & post & ->)].
      * now exists [], post.
      * now exists (b :: pre), post.
    + intros (pre & post & H). destruct pre as [|x pre].
      * left. now exists post.
      * right. injection H as _ ->. now exists pre, post.
Qed.

(** C5.  In literal mode the test accepts a line exactly when the
    lower-cased pattern occurs as a substring of the lower-cased line; in
    regex mode it is the compiled pattern's [search] on the line, which may
    succeed anywhere in it.  With ASCII lower-casing, the literal [error]
    matches [An ERROR occurred], and the regex [ERROR] is found inside that
    line without spanning it. *)
Theorem C5_match_test (L : pylib) (path p line : text) (dir : bool)
    (rx : option (regex L)) (r : regex L) :
  (line_matches L
     {| file_path := path; pattern := p; is_regex := false; is_directory := dir |}
     rx line = true
   <-> exists pre post, lower L line = pre ++ lower L p ++ post) /\
  line_matches L
    {| file_path := path; pattern := p; is_regex := true; is_directory := dir |}
    (Some r) line = re_search L r line /\
  line_matches sample_lib demo_literal None (txt "An ERROR occurred") = true /\
  line_matches sample_lib
    {| file_path := path; pattern := txt "ERROR"; is_regex := true;
       is_directory := dir |}
    (re_compile sample_lib (txt "ERROR")) (txt "An ERROR occurred") = true.
Proof.
  repeat split.
  - intros H. now apply contains_iff.
  - intros H. now apply contains_iff.
Qed.

(** ** Directories *)

Section Directory.

Variable L : pylib.
Variable cs : N.
Variable self : LogAnalyzerThread.

Lemma exit_of_unstopped (m : nat) (fl : option nat) :
  snd (exit_of m fl None) = None /\ reach m fl None = bound fl m.
Proof.
  split; [|reflexivity]. destruct fl as [j|]; [|reflexivity].
  cbn. now destruct (j <=? m).
Qed.

Lemma exit_of_clock (m : nat) (fl : option nat) (t : nat) :
  (t <= bound fl m /\
   exit_of m fl (Some t) = (false, Some 0) /\
   reach m fl (Some t) = t) \/
  (bound fl m < t /\
   exit_of m fl (Some t) = (fst (exit_of m fl None), Some (t - S (bound fl m))) /\
   reach m fl (Some t) = bound fl m).
Proof.
  unfold reach. destruct fl as [j|]; cbn [bound exit_of].
  - destruct (Nat.leb_spec t j) as [Htj|Htj];
      destruct (Nat.leb_spec t m) as [Htm|Htm];
      destruct (Nat.leb_spec j m) as [Hjm|Hjm]; cbn [andb fst];
      try (left; repeat split; lia);
      right; rewrite ?(Nat.min_l j m), ?(Nat.min_r j m) by lia;
      repeat split; lia.
  - destruct (Nat.leb_spec t m) as [Htm|Htm]; [left|right];
      repeat split; lia.
Qed.

(** A scan that is never stopped leaves the clock alone. *)
Lemma analyze_file_unstopped (target : option node) :
  exists st, _analyze_file L cs self target None = Some (st, None).
Proof.
  destruct (compile_pattern L self) as [rx|] eqn:Hrx.
  - destruct target as [[content fl| |entries]|];
      try (unfold _analyze_file; rewrite Hrx; cbn [open]; eauto; fail).
    rewrite (analyze_file_spec L cs self content fl None Hrx). cbn zeta.
    destruct (exit_of_unstopped (length (chunks cs content)) fl) as [Hk _].
    destruct (exit_of _ fl None) as [[|] k1]; cbn [snd] in Hk; subst k1; eauto.
    rewrite flush_never_stopped. eauto.
  - unfold _analyze_file. rewrite Hrx. eauto.
Qed.

Lemma state_prefix_state (rx : option (regex L)) (a b : text) :
  exists more,
    results (state_of L self rx (a ++ b)) =
    results (state_of L self rx a) ++ more.
Proof.
  cbn [results state_of].
  rewrite complete_lines_app, numbered_app, matching_app. eauto.
Qed.

Lemma state_prefix_flushed (rx : option (regex L)) (a b : text) :
  exists more,
    results (flushed L self rx (a ++ b)) =
    results (state_of L self rx a) ++ more.
Proof.
  cbn [results state_of flushed].
  destruct (list_eq_dec ascii_dec (last (split nl (a ++ b)) []) []) as [E|E].
  - rewrite (whole_lines_complete _ E).
    rewrite complete_lines_app, numbered_app, matching_app. eauto.
  - rewrite (whole_lines_carry _ E).
    rewrite complete_lines_app, <- app_assoc, numbered_app, matching_app.
    eauto.
Qed.

Lemma firstn_le_concat (t i : nat) (chs : list text) :
  t <= i ->
  exists b, concat (firstn i chs) = concat (firstn t chs) ++ b.
Proof.
  intros H. exists (concat (skipn t (firstn i chs))).
  rewrite (firstn_concat_prefix t (firstn i chs)), firstn_firstn.
  now rewrite Nat.min_l.
Qed.

(** Under a stop clock a file's scan returns a prefix of what the
    unstopped scan returns, and all of it unless the clock ran out. *)
Lemma scan_under_clock (nd : node) (t : nat) :
  exists st t' more,
    _analyze_file L cs self (Some nd) (Some t) = Some (st, Some t') /\
    scan_results L cs self nd None = results st ++ more /\
    (t' = 0 \/ more = []).
Proof.
  unfold scan_results.
  destruct (compile_pattern L self) as [rx|] eqn:Hrx.
  - destruct nd as [content fl| |entries];
      try (unfold _analyze_file; rewrite Hrx; cbn [open];
           exists initial, t, []; repeat split; auto; fail).
    rewrite !(analyze_file_spec L cs self content _ _ Hrx). cbn zeta.
    set (chs := chunks cs content). set (m := length chs).
    destruct (exit_of_unstopped m fl) as [Hk Hi]. rewrite Hi.
    destruct (exit_of_clock m fl t) as [(Ht & He & Hr)|(Ht & He & Hr)];
      rewrite He, Hr.
    + (* stopped inside the loop *)
      rewrite flush_stopped.
      destruct (firstn_le_concat chs Ht) as [b Hb]. rewrite Hb.
      destruct (exit_of m fl None) as [[|] k1]; cbn [snd] in Hk; subst k1.
      * destruct (state_prefix_state rx (concat (firstn t chs)) b) as [more Hm].
        exists (state_of L self rx (concat (firstn t chs))), 0, more. auto.
      * rewrite flush_never_stopped.
        destruct (state_prefix_flushed rx (concat (firstn t chs)) b) as [more Hm].
        exists (state_of L self rx (concat (firstn t chs))), 0, more. auto.
    + (* the loop ended as it would have unstopped *)
      set (c := concat (firstn (bound fl m) chs)).
      destruct (exit_of m fl None) as [[|] k1]; cbn [snd fst] in *; subst k1.
      * exists (state_of L self rx c), (t - S (bound fl m)), [].
        rewrite app_nil_r. auto.
      * rewrite flush_never_stopped, flush_spec.
        destruct (last (split nl c) []) as [|x frag] eqn:E.
        { exists (state_of L self rx c), (t - S (bound fl m)), [].
          rewrite app_nil_r, flushed_no_carry by assumption. auto. }
        destruct (t - S (bound fl m)) as [|t']; cbn [running fst snd].
        { destruct (state_prefix_flushed rx c []) as [more Hm].
          rewrite app_nil_r in Hm.
          exists (state_of L self rx c), 0, more. auto. }
        exists (flushed L self rx c), t', []. rewrite app_nil_r. auto.
  - unfold _analyze_file. rewrite Hrx.
    exists initial, t, []. repeat split; auto.
Qed.

(** The directory loop when the scan is never stopped. *)
Lemma for_log_files_unstopped (files : list (text * node))
    (acc : list text) (out : list signal) :
  for_log_files L cs self files None acc out =
  Some (acc ++ concat (map (fun e => scan_results L cs self (snd e) None) files),
        out ++ map announce files, None).
Proof.
  revert acc out. induction files as [|[name nd] more IH]; intros acc out.
  - cbn. now rewrite !app_nil_r.
  - cbn [for_log_files running].
    cbn [map concat snd].
    destruct (analyze_file_unstopped (Some nd)) as [st Hst]. rewrite Hst.
    rewrite IH. unfold scan_results at 2. rewrite Hst.
    unfold announce at 2. cbn [fst]. now rewrite <- !app_assoc.
Qed.

(** Once the stop is visible no further file is started. *)
Lemma for_log_files_stopped (files : list (text * node))
    (acc : list text) (out : list signal) :
  for_log_files L cs self files (Some 0) acc out = Some (acc, out, Some 0).
Proof. now destruct files as [|[name nd] more]. Qed.

(** The directory loop under a stop clock: some files in full, then a
    prefix of the next one's records. *)
Lemma for_log_files_clock (files : list (text * node)) (t : nat)
    (acc : list text) (out : list signal) :
  exists n p out' t',
    for_log_files L cs self files (Some t) acc out =
      Some (acc ++ concat (map (fun e => scan_results L cs self (snd e) None) (firstn n files)) ++ p,
            out ++ out', Some t') /\
    n <= length files /\
    (p = [] \/ exists e more, nth_error files n = Some e /\ scan_results L cs self (snd e) None = p ++ more).
Proof.
  revert t acc out. induction files as [|[name nd] rest IH]; intros t acc out.
  - exists 0, [], [], t. cbn. rewrite !app_nil_r. auto.
  - destruct t as [|t].
    + exists 0, [], [], 0. cbn. rewrite !app_nil_r. auto with arith.
    + cbn [for_log_files running].
      destruct (scan_under_clock nd t) as (st & t' & more & Hst & Hfull & Hcase).
      rewrite Hst. destruct Hcase as [->| ->].
      * (* the clock ran out inside this file *)
        rewrite for_log_files_stopped.
        exists 0, (results st),
          [progress (txt "Processing " ++ name ++ txt "...")], 0.
        cbn [firstn map concat app length nth_error]. repeat split.
        -- lia.
        -- right. exists (name, nd), more. auto.
      * (* this file was scanned in full *)
        rewrite app_nil_r in Hfull.
        destruct (IH t' (acc ++ results st)
                    (out ++ [progress (txt "Processing " ++ name ++ txt "...")]))
          as (n & p & out' & t'' & Hrun & Hn & Hp).
        exists (S n), p,
          (progress (txt "Processing " ++ name ++ txt "...") :: out'), t''.
        rewrite Hrun. cbn [firstn map concat snd length nth_error].
        rewrite Hfull, <- !app_assoc. cbn [app]. repeat split; [lia|exact Hp].
Qed.

End Directory.

(** ** Directory scans that run to the end *)

Lemma terminal_state_finished (out : list signal) (res : list text) :
  terminal_state (out ++ [finished res]) = Completed res.
Proof. unfold terminal_state. now rewrite rev_app_distr. Qed.

Lemma run_directory_unstopped (L : pylib) (cs : N) (self : LogAnalyzerThread)
    (entries : list (text * node)) :
  is_directory self = true ->
  run L cs self (Some (Dir entries)) None =
  Some (map announce (visits (Some (Dir entries))) ++
        [finished (concat (map (fun e => scan_results L cs self (snd e) None)
                               (visits (Some (Dir entries)))))],
        None).
Proof.
  intros Hdir. unfold run. rewrite Hdir. fold (visits (Some (Dir entries))).
  now rewrite for_log_files_unstopped.
Qed.

(** The claim that the visit order is the lexical order of the names fails
    on a directory listed in lexical order: the [.log] entry is visited
    before the [.txt] entry that precedes it. *)
Lemma C3_counterexample :
  lex_sorted (map fst lexical_dir) = true /\
  run sample_lib chunk_size demo_walk (Some (Dir lexical_dir)) None =
    Some ([progress (txt "Processing b.log...");
           progress (txt "Processing a.txt...");
           finished [txt "1: err in b"; txt "1: err in a"]], None) /\
  lex_sorted (map fst (visits (Some (Dir lexical_dir)))) = false.
Proof. repeat split; vm_compute; reflexivity. Qed.

(** C3 (amended).  A directory scan that is never stopped visits the
    entries of the directory itself, never those of a subdirectory: first
    the entries whose name ends in [.log], then those whose name ends in
    [.txt], each group in the order the directory lists them; it announces
    each and concatenates their records in that visit order. *)
Theorem C3_visits_logs_then_texts (L : pylib) (cs : N)
    (self : LogAnalyzerThread) (entries : list (text * node)) :
  is_directory self = true ->
  let visited :=
    filter (fun e => ends_with (txt ".log") (fst e)) entries ++
    filter (fun e => ends_with (txt ".txt") (fst e)) entries in
  run L cs self (Some (Dir entries)) None =
    Some (map announce visited ++
          [finished (concat (map (fun e => scan_results L cs self (snd e) None)
                                 visited))], None) /\
  incl visited entries.
Proof.
  intros Hdir visited. split.
  - now rewrite run_directory_unstopped.
  - intros e He. apply in_app_or in He.
    destruct He as [He|He]; now apply filter_In in He.
Qed.

Lemma C3_witness :
  let visited :=
    filter (fun e => ends_with (txt ".log") (fst e)) mixed_dir ++
    filter (fun e => ends_with (txt ".txt") (fst e)) mixed_dir in
  run sample_lib chunk_size demo_walk (Some (Dir mixed_dir)) None =
    Some (map announce visited ++
          [finished (concat (map (fun e => scan_results sample_lib chunk_size
                                             demo_walk (snd e) None)
                                 visited))], None) /\
  incl visited mixed_dir.
Proof.
  apply (@C3_visits_logs_then_texts sample_lib chunk_size demo_walk mixed_dir).
  reflexivity.
Defined.

(** ** Files that fail *)

Lemma scan_results_unopened (L : pylib) (cs : N) (self : LogAnalyzerThread)
    (k : clock) :
  scan_results L cs self Denied k = [] /\
  forall entries, scan_results L cs self (Dir entries) k = [].
Proof.
  unfold scan_results, _analyze_file.
  split; [|intros entries]; now destruct (compile_pattern L self).
Qed.

Lemma scan_results_failed_read (L : pylib) (cs : N) (self : LogAnalyzerThread)
    (rx : option (regex L)) (content : text) (j : nat) :
  compile_pattern L self = Some rx ->
  j <= length (chunks cs content) ->
  scan_results L cs self (File content (Some j)) None =
  matching L self rx
    (numbered (complete_lines (concat (firstn j (chunks cs content))))).
Proof.
  intros Hrx Hj. unfold scan_results.
  rewrite (analyze_file_spec L cs self content (Some j) None Hrx). cbn zeta.
  cbn [exit_of reach bound]. apply Nat.leb_le in Hj as Hb. rewrite Hb.
  now rewrite Nat.min_l.
Qed.

Lemma scan_results_readable (L : pylib) (cs : N) (self : LogAnalyzerThread)
    (rx : option (regex L)) (content : text) (fl : option nat) :
  compile_pattern L self = Some rx ->
  (1 <= cs)%N ->
  bound fl (S (length (chunks cs content))) = S (length (chunks cs content)) ->
  scan_results L cs self (File content fl) None =
  matching L self rx (numbered (whole_lines content)).
Proof.
  intros Hrx Hcs Hfl. unfold scan_results.
  rewrite (analyze_file_spec L cs self content fl None Hrx). cbn zeta.
  assert (exit_of (length (chunks cs content)) fl None = (false, None) /\
          reach (length (chunks cs content)) fl None = length (chunks cs content))
    as [-> ->].
  { destruct fl as [j|]; cbn [exit_of reach bound] in *; [|auto].
    destruct (Nat.leb_spec j (length (chunks cs content))); split; lia || auto. }
  rewrite firstn_all, concat_chunks by lia.
  now rewrite flush_never_stopped.
Qed.

Lemma scan_results_expected (L : pylib) (cs : N) (self : LogAnalyzerThread)
    (rx : option (regex L)) (nd : node) :
  compile_pattern L self = Some rx ->
  (1 <= cs)%N ->
  scan_results L cs self nd None = expected_yield L cs self rx nd.
Proof.
  intros Hrx Hcs. destruct nd as [content [j|]| |entries]; cbn [expected_yield].
  - destruct (Nat.leb_spec j (length (chunks cs content))) as [Hj|Hj].
    + now apply scan_results_failed_read.
    + apply scan_results_readable; auto. cbn [bound]. lia.
  - now apply scan_results_readable.
  - apply scan_results_unopened.
  - apply scan_results_unopened.
Qed.

(** C6.  In a directory scan that is never stopped a failing file is not
    fatal: the run ends with [finished] (terminal state Completed, not
    Failed) and the result is the concatenation, in visit order, of what
    each visited entry yields.  An entry that cannot be opened yields
    nothing; a file whose read number [j] fails yields the records of the
    complete lines of the [j] chunks read before the failure; a readable
    file yields the records of all its lines; and the entries after a
    failing one are scanned all the same. *)
Theorem C6_file_errors_are_not_fatal (L : pylib) (cs : N)
    (self : LogAnalyzerThread) (rx : option (regex L))
    (entries : list (text * node)) :
  is_directory self = true ->
  compile_pattern L self = Some rx ->
  (1 <= cs)%N ->
  let visited := visits (Some (Dir entries)) in
  let res := concat (map (fun e => expected_yield L cs self rx (snd e)) visited) in
  run L cs self (Some (Dir entries)) None =
    Some (map announce visited ++ [finished res], None) /\
  terminal_state (map announce visited ++ [finished res]) = Completed res.
Proof.
  intros Hdir Hrx Hcs visited res. split.
  - rewrite run_directory_unstopped by assumption. fold visited.
    unfold res. rewrite (map_ext _ (fun e => expected_yield L cs self rx (snd e)));
      [reflexivity|].
    intros e. now apply scan_results_expected.
  - apply terminal_state_finished.
Qed.

Lemma C6_witness :
  let visited := visits (Some (Dir mixed_dir)) in
  let res :=
    concat (map (fun e => expected_yield sample_lib chunk_size demo_walk None (snd e))
                visited) in
  run sample_lib chunk_size demo_walk (Some (Dir mixed_dir)) None =
    Some (map announce visited ++ [finished res], None) /\
  terminal_state (map announce visited ++ [finished res]) = Completed res.
Proof.
  apply (@C6_file_errors_are_not_fatal sample_lib chunk_size demo_walk None
           mixed_dir); [reflexivity | reflexivity | vm_compute; discriminate].
Defined.

(** The directory of the example: the unreadable file in the middle costs
    nothing but its own records. *)
Example mixed_dir_run :
  run sample_lib chunk_size demo_walk (Some (Dir mixed_dir)) None =
    Some ([progress (txt "Processing a.log...");
           progress (txt "Processing bad.log...");
           progress (txt "Processing c.txt...");
           finished [txt "1: err 1"; txt "2: err 2"]], None).
Proof. vm_compute. reflexivity. Qed.

(** ** Stopping a directory scan *)




(** ** A pattern that does not compile *)

Section BadRegex.

Variable L : pylib.
Variable cs : N.
Variable self : LogAnalyzerThread.
Hypothesis Hregex : is_regex self = true.
Hypothesis Hbad : re_compile L (pattern self) = None.

Lemma compile_pattern_fails : compile_pattern L self = None.
Proof. unfold compile_pattern. now rewrite Hregex, Hbad. Qed.

(** The compile error is caught before the file is opened. *)
Lemma analyze_file_bad_regex (target : option node) (k : clock) :
  _analyze_file L cs self target k = Some (initial, k).
Proof. unfold _analyze_file. now rewrite compile_pattern_fails. Qed.

Lemma for_log_files_bad_regex (files : list (text * node)) (k : clock)
    (acc : list text) (out : list signal) :
  exists out' k',
    for_log_files L cs self files k acc out = Some (acc, out ++ out', k').
Proof.
  revert k acc out. induction files as [|[name nd] more IH]; intros k acc out.
  - exists [], k. cbn. now rewrite app_nil_r.
  - cbn [for_log_files]. destruct (running k) as [[|] k1].
    + rewrite analyze_file_bad_regex. cbn [results initial].
      rewrite app_nil_r.
      destruct (IH k1 acc
                  (out ++ [progress (txt "Processing " ++ name ++ txt "...")]))
        as (out' & k' & H).
      rewrite H. rewrite <- app_assoc. eauto.
    + exists [], k1. now rewrite app_nil_r.
Qed.

Lemma run_bad_regex (target : option node) (k : clock) :
  exists out k', run L cs self target k = Some (out ++ [finished []], k').
Proof.
  unfold run. destruct (is_directory self).
  - destruct (for_log_files_bad_regex
                (glob (txt ".log") target ++ glob (txt ".txt") target) k [] [])
      as (out & k' & H).
    rewrite H. cbn [app]. eauto.
  - rewrite analyze_file_bad_regex. cbn [results initial].
    exists [progress (txt "Processing file...")], k. reflexivity.
Qed.

End BadRegex.

(** The claim that a pattern which does not compile makes the job fail at
    start fails: with the regex ["("] the search starts, the thread runs
    and ends with [finished] on an empty list, and the screen reports a
    completed analysis without matches; no error is shown. *)
Lemma C2_counterexample :
  re_compile sample_lib (pattern_input bad_regex_screen) = None /\
  (exists t,
     snd (_on_search_clicked demo_fs bad_regex_screen) = Some t /\
     run sample_lib chunk_size t (demo_fs (path_input bad_regex_screen)) None =
       Some ([progress (txt "Processing file..."); finished []], None)) /\
  status_label (fst (_on_search_clicked demo_fs bad_regex_screen)) =
    txt "Analyzing..." /\
  status_label
    (_on_analysis_finished (fst (_on_search_clicked demo_fs bad_regex_screen)) []) =
    txt "Analysis complete: No matches found".
Proof.
  repeat split; try (vm_compute; reflexivity).
  eexists. split; vm_compute; reflexivity.
Qed.

(** C2 (amended).  When the regular-expression pattern does not compile and
    the inputs are otherwise acceptable, the search still starts: the
    thread is spawned and the screen shows the analysis as running.  In the
    thread every per-file scan catches the compile error before the file is
    opened, sees no line and contributes no record, whatever the path and
    the stop clock; the run, single-file or directory, ends with [finished]
    on the empty list, and the screen then reports a completed analysis
    with no matches. *)
Theorem C2_bad_regex_completes_empty (L : pylib) (cs : N)
    (fs : text -> option node) (scr : LogAnalyticsScreen) (k : clock) :
  is_empty (path_input scr) = false ->
  is_empty (pattern_input scr) = false ->
  exists_ fs (path_input scr) = true ->
  regex_checkbox scr = true ->
  re_compile L (pattern_input scr) = None ->
  exists scr' t out k',
    _on_search_clicked fs scr = (scr', Some t) /\
    status_label scr' = txt "Analyzing..." /\
    (forall target k0, _analyze_file L cs t target k0 = Some (initial, k0)) /\
    run L cs t (fs (path_input scr)) k = Some (out ++ [finished []], k') /\
    status_label (_on_analysis_finished scr' []) =
      txt "Analysis complete: No matches found".
Proof.
  intros Hpath Hpat Hex Hchk Hbad.
  unfold _on_search_clicked. rewrite Hpath, Hpat, Hex. cbn [orb negb].
  set (t := {| file_path := path_input scr; pattern := pattern_input scr;
               is_regex := regex_checkbox scr;
               is_directory := isdir fs (path_input scr) |}).
  assert (Hr : is_regex t = true) by exact Hchk.
  assert (Hb : re_compile L (pattern t) = None) by exact Hbad.
  destruct (run_bad_regex L cs t Hr Hb (fs (path_input scr)) k) as (out & k' & Hrun).
  eexists _, t, out, k'. repeat split.
  - intros target k0. now apply analyze_file_bad_regex.
  - exact Hrun.
Qed.

Lemma C2_witness :
  exists scr' t out k',
    _on_search_clicked demo_fs bad_regex_screen = (scr', Some t) /\
    status_label scr' = txt "Analyzing..." /\
    (forall target k0,
       _analyze_file sample_lib chunk_size t target k0 = Some (initial, k0)) /\
    run sample_lib chunk_size t (demo_fs (path_input bad_regex_screen)) None =
      Some (out ++ [finished []], k') /\
    status_label (_on_analysis_finished scr' []) =
      txt "Analysis complete: No matches found".
Proof.
  apply (@C2_bad_regex_completes_empty sample_lib chunk_size demo_fs
           bad_regex_screen None); reflexivity.
Defined.

(** ** Starting a search *)

(** C9.  When the path or the pattern field is empty, or nothing exists at
    the path, [_on_search_clicked] returns at once without creating a
    thread: the screen is left as it was (its thread, its buttons, its
    result area), only the status shows the error, which is the
    empty-input message when one of the two fields is empty and the
    path-not-found message otherwise. *)
Theorem C9_start_rejects_bad_input (fs : text -> option node)
    (scr : LogAnalyticsScreen) :
  path_input scr = [] \/ pattern_input scr = [] \/ fs (path_input scr) = None ->
  exists msg,
    _on_search_clicked fs scr = (set_status scr msg, None) /\
    msg = (if is_empty (path_input scr) || is_empty (pattern_input scr)
           then txt "Error: Please select a file/directory and enter a pattern"
           else txt "Error: Path does not exist") /\
    _analyzer_thread (set_status scr msg) = _analyzer_thread scr /\
    search_button (set_status scr msg) = search_button scr /\
    cancel_button (set_status scr msg) = cancel_button scr /\
    results_text (set_status scr msg) = results_text scr.
Proof.
  intros H. unfold _on_search_clicked, exists_.
  destruct (is_empty (path_input scr) || is_empty (pattern_input scr)) eqn:E.
  - eexists. repeat split.
  - apply orb_false_elim in E as [Ep Eq].
    destruct H as [H|[H|H]].
    + rewrite H in Ep. discriminate.
    + rewrite H in Eq. discriminate.
    + rewrite H. cbn [negb]. eexists. repeat split.
Qed.

Lemma C9_witness :
  exists msg,
    _on_search_clicked demo_fs missing_path_screen =
      (set_status missing_path_screen msg, None) /\
    msg = (if is_empty (path_input missing_path_screen)
              || is_empty (pattern_input missing_path_screen)
           then txt "Error: Please select a file/directory and enter a pattern"
           else txt "Error: Path does not exist") /\
    _analyzer_thread (set_status missing_path_screen msg) =
      _analyzer_thread missing_path_screen /\
    search_button (set_status missing_path_screen msg) =
      search_button missing_path_screen /\
    cancel_button (set_status missing_path_screen msg) =
      cancel_button missing_path_screen /\
    results_text (set_status missing_path_screen msg) =
      results_text missing_path_screen.
Proof.
  apply (@C9_start_rejects_bad_input demo_fs missing_path_screen).
  right. right. reflexivity.
Defined.

Example empty_pattern_rejected :
  _on_search_clicked demo_fs empty_pattern_screen =
    (set_status empty_pattern_screen
       (txt "Error: Please select a file/directory and enter a pattern"), None).
Proof. reflexivity. Qed.

(** ** Displaying the results *)

Lemma split_newline_free (s : text) :
  newline_free s = true -> split nl s = [s].
Proof.
  unfold newline_free. induction s as [|c r IH]; [reflexivity|].
  cbn [existsb split]. rewrite negb_orb, andb_true_iff. intros [Hc Hr].
  rewrite Ascii.eqb_sym in Hc. apply negb_true_iff in Hc. rewrite Hc.
  now rewrite IH.
Qed.

Lemma split_newline_free_app (s more : text) :
  newline_free s = true -> split nl (s ++ nl :: more) = s :: split nl more.
Proof.
  unfold newline_free. induction s as [|c r IH].
  - intros _. cbn [app split]. now rewrite Ascii.eqb_refl.
  - cbn [existsb app split]. rewrite negb_orb, andb_true_iff. intros [Hc Hr].
    rewrite Ascii.eqb_sym in Hc. apply negb_true_iff in Hc. rewrite Hc.
    now rewrite IH.
Qed.

Lemma split_join (recs : list text) :
  recs <> [] -> forallb newline_free recs = true ->
  split nl (join [nl] recs) = recs.
Proof.
  induction recs as [|p [|q more] IH]; [easy| |]; intros _ H.
  - cbn in *. rewrite andb_true_r in H. now apply split_newline_free.
  - cbn [forallb] in H. apply andb_true_iff in H as [Hp Hq].
    change (join [nl] (p :: q :: more)) with (p ++ [nl] ++ join [nl] (q :: more)).
    cbn [app]. rewrite split_newline_free_app by assumption.
    rewrite IH; easy.
Qed.

Lemma forallb_firstn (A : Type) (f : A -> bool) (n : nat) (l : list A) :
  forallb f l = true -> forallb f (firstn n l) = true.
Proof.
  revert n. induction l as [|x l IH]; intros [|n]; cbn; try reflexivity.
  rewrite !andb_true_iff. intros [Hx Hl]. auto.
Qed.

(** *** Scan records have no newline in them *)

Lemma newline_free_app (a b : text) :
  newline_free (a ++ b) = newline_free a && newline_free b.
Proof. unfold newline_free. now rewrite existsb_app, negb_orb. Qed.

Lemma split_fragments_free (s : text) :
  forallb newline_free (split nl s) = true.
Proof.
  induction s as [|c r IH]; [reflexivity|]. cbn [split].
  destruct (Ascii.eqb c nl) eqn:E; [exact IH|].
  destruct (split nl r) as [|h t]; cbn [forallb] in *.
  - unfold newline_free. cbn [existsb]. now rewrite Ascii.eqb_sym, E.
  - apply andb_true_iff in IH as [Hh Ht]. rewrite Ht, andb_true_r.
    unfold newline_free in *. cbn [existsb]. now rewrite Ascii.eqb_sym, E.
Qed.

Lemma in_removelast (A : Type) (x : A) (l : list A) :
  In x (removelast l) -> In x l.
Proof.
  induction l as [|y [|z l] IH]; [easy|easy|].
  rewrite removelast_cons2. intros [->|H]; [now left|right; auto].
Qed.

Lemma complete_lines_free (s : text) :
  forallb newline_free (complete_lines s) = true.
Proof.
  apply forallb_forall. intros x Hx. apply in_removelast in Hx.
  now apply (proj1 (forallb_forall _ _) (split_fragments_free s)).
Qed.

Lemma whole_lines_free (s : text) :
  forallb newline_free (whole_lines s) = true.
Proof.
  destruct (list_eq_dec ascii_dec (last (split nl s) []) []) as [E|E].
  - rewrite (whole_lines_complete s E). apply complete_lines_free.
  - rewrite (whole_lines_carry s E), forallb_app, complete_lines_free.
    cbn [forallb andb]. rewrite andb_true_r.
    apply (proj1 (forallb_forall _ _) (split_fragments_free s)).
    rewrite (app_removelast_last [] (split_not_nil nl s)) at 2.
    apply in_or_app. right. now left.
Qed.

Lemma digits_free (d : Decimal.uint) :
  newline_free (txt (NilEmpty.string_of_uint d)) = true.
Proof. induction d; [reflexivity|exact IHd..]. Qed.

Lemma render_free (n : nat) (line : text) :
  newline_free line = true -> newline_free (render n line) = true.
Proof.
  intros H. unfold render, str.
  now rewrite !newline_free_app, digits_free, H.
Qed.

Lemma matching_free (L : pylib) (self : LogAnalyzerThread)
    (rx : option (regex L)) (ls : list text) :
  forallb newline_free ls = true ->
  forallb newline_free (matching L self rx (numbered ls)) = true.
Proof.
  intros H. apply forallb_forall. intros r Hr.
  apply in_map_iff in Hr as ([n line] & <- & Hin).
  apply filter_In in Hin as [Hin _]. apply in_combine_r in Hin.
  apply render_free. now apply (proj1 (forallb_forall _ _) H).
Qed.

(** The records a scan returns, and so those a run hands to the display,
    contain no newline. *)
Lemma scan_records_newline_free (L : pylib) (cs : N) (self : LogAnalyzerThread)
    (target : option node) (k : clock) (st : locals) (k' : clock) :
  _analyze_file L cs self target k = Some (st, k') ->
  forallb newline_free (results st) = true.
Proof.
  intros H.
  destruct (scan_shape L cs self target k)
    as (st0 & k0 & ls & c & H0 & _ & _ & Hr & Hls).
  rewrite H in H0. injection H0 as <- <-. rewrite Hr.
  apply matching_free.
  destruct Hls as [-> | ->]; [apply complete_lines_free|apply whole_lines_free].
Qed.

Lemma for_log_files_newline_free (L : pylib) (cs : N) (self : LogAnalyzerThread)
    (files : list (text * node)) (k : clock) (acc : list text)
    (out : list signal) (res : list text) (out' : list signal) (k' : clock) :
  forallb newline_free acc = true ->
  for_log_files L cs self files k acc out = Some (res, out', k') ->
  forallb newline_free res = true.
Proof.
  revert k acc out. induction files as [|[name nd] more IH]; intros k acc out Hacc.
  - cbn. now intros [= <- _ _].
  - cbn [for_log_files]. destruct (running k) as [[|] k1].
    + destruct (_analyze_file L cs self (Some nd) k1) as [[st k2]|] eqn:E;
        [|discriminate].
      apply IH. rewrite forallb_app, Hacc.
      now rewrite (scan_records_newline_free L cs self (Some nd) k1 E).
    + now intros [= <- _ _].
Qed.

Lemma run_records_newline_free (L : pylib) (cs : N) (self : LogAnalyzerThread)
    (target : option node) (k : clock) (out : list signal) (k' : clock)
    (res : list text) :
  run L cs self target k = Some (out, k') ->
  In (finished res) out ->
  forallb newline_free res = true.
Proof.
  unfold run. destruct (is_directory self).
  - destruct (for_log_files _ _ _ _ _ _ _) as [[[r o] k1]|] eqn:E; [|discriminate].
    intros [= <- _] Hin. apply in_app_or in Hin as [Hin|[[= <-]|[]]].
    + exfalso. revert Hin. clear -E.
      assert (G : forall files k acc o0 r o k1,
                 for_log_files L cs self files k acc o0 = Some (r, o, k1) ->
                 (forall x, In (finished x) o0 -> False) ->
                 forall x, In (finished x) o -> False).
      { induction files as [|[name nd] more IH]; intros k0 acc o0 r0 o1 k2.
        - cbn. intros [= _ <- _]. auto.
        - cbn [for_log_files]. destruct (running k0) as [[|] k3].
          + destruct (_analyze_file L cs self (Some nd) k3) as [[st k4]|];
              [|discriminate].
            intros H Ho0. apply (IH _ _ _ _ _ _ H).
            intros x Hx. apply in_app_or in Hx as [Hx|[Hx|[]]];
              [eauto|discriminate].
          + intros [= _ <- _]. auto. }
      intros Hin. apply (G _ _ _ _ _ _ _ E (fun x H => H) res Hin).
    + now apply (for_log_files_newline_free L cs self _ _ [] [] eq_refl E).
  - destruct (_analyze_file L cs self target k) as [[st k1]|] eqn:E; [|discriminate].
    intros [= <- _] [Hin|[[= <-]|[]]]; [discriminate|].
    now apply (scan_records_newline_free L cs self target k E).
Qed.

(** C8.  For a result list of R records (none containing a newline, as scan
    records are), the display shows exactly the first min(R, 1000) of them;
    a remainder notice with the count R - 1000 is shown exactly when R
    exceeds 1000; and the status reports the full count R, whatever the
    cap (as "No matches found" when R is 0). *)
Theorem C8_display_cap (scr : LogAnalyticsScreen) (results : list text) :
  forallb newline_free results = true ->
  let scr' := _on_analysis_finished scr results in
  let R := length results in
  shown_records scr' = firstn 1000 results /\
  length (shown_records scr') = Nat.min R 1000 /\
  remainder_notice scr' =
    (if 1000 <? R
     then Some ([nl; nl] ++ txt "... and " ++ str (R - 1000) ++ txt " more matches")
     else None) /\
  status_label scr' =
    (if R =? 0 then txt "Analysis complete: No matches found"
     else txt "Analysis complete: " ++ str R ++ txt " matches found").
Proof.
  intros Hfree scr' R.
  assert (Hshown : shown_records scr' = firstn 1000 results).
  { subst scr'. destruct results as [|r more]; [reflexivity|].
    unfold shown_records, _on_analysis_finished. cbn [results_text app].
    apply split_join; [discriminate|]. now apply forallb_firstn. }
  rewrite Hshown, length_firstn, Nat.min_comm. repeat split.
  - subst scr' R. destruct results as [|r more]; [reflexivity|].
    unfold remainder_notice, _on_analysis_finished. cbn [results_text app].
    now destruct (1000 <? length (r :: more)).
  - subst scr' R. now destruct results.
Qed.

Lemma C8_witness :
  let scr' := _on_analysis_finished bad_regex_screen many_records in
  let R := length many_records in
  shown_records scr' = firstn 1000 many_records /\
  length (shown_records scr') = Nat.min R 1000 /\
  remainder_notice scr' =
    (if 1000 <? R
     then Some ([nl; nl] ++ txt "... and " ++ str (R - 1000) ++ txt " more matches")
     else None) /\
  status_label scr' =
    (if R =? 0 then txt "Analysis complete: No matches found"
     else txt "Analysis complete: " ++ str R ++ txt " matches found").
Proof.
  apply (@C8_display_cap bad_regex_screen many_records).
  vm_compute. reflexivity.
Defined.

(** 1500 records: 1000 shown, a remainder of 500, a total of 1500. *)
Example display_of_1500 :
  length many_records = 1500 /\
  length (shown_records (_on_analysis_finished bad_regex_screen many_records)) = 1000 /\
  remainder_notice (_on_analysis_finished bad_regex_screen many_records) =
    Some ([nl; nl] ++ txt "... and 500 more matches") /\
  status_label (_on_analysis_finished bad_regex_screen many_records) =
    txt "Analysis complete: 1500 matches found".
Proof. repeat split; vm_compute; reflexivity. Qed.

(** * Further properties of the scan *)

(** ** The state between chunks *)

Lemma analyze_file_stopped_after (L : pylib) (cs : N) (self : LogAnalyzerThread)
    (rx : option (regex L)) (content : text) (t : nat) :
  compile_pattern L self = Some rx ->
  t <= length (chunks cs content) ->
  _analyze_file L cs self (Some (File content None)) (Some t) =
  Some (state_of L self rx (concat (firstn t (chunks cs content))), Some 0).
Proof.
  intros Hrx Ht.
  rewrite (analyze_file_spec L cs self content None (Some t) Hrx). cbn zeta.
  cbn [exit_of reach bound]. apply Nat.leb_le in Ht as Hb. rewrite Hb.
  rewrite Nat.min_l by assumption. now rewrite flush_stopped.
Qed.

Lemma last_split_free (s : text) : newline_free (last (split nl s) []) = true.
Proof.
  apply (proj1 (forallb_forall _ _) (split_fragments_free s)).
  rewrite (app_removelast_last [] (split_not_nil nl s)) at 2.
  apply in_or_app. right. now left.
Qed.

(** A text without newline that is continued stays the beginning of the
    first fragment. *)
Lemma split_continues (a d : text) :
  newline_free a = true -> exists h t, split nl (a ++ d) = (a ++ h) :: t.
Proof.
  unfold newline_free. induction a as [|c r IH].
  - intros _. destruct (split nl d) as [|h t] eqn:E;
      [now apply split_not_nil in E|]. now exists h, t.
  - cbn [existsb app split]. rewrite negb_orb, andb_true_iff. intros [Hc Hr].
    rewrite Ascii.eqb_sym in Hc. apply negb_true_iff in Hc. rewrite Hc.
    destruct (IH Hr) as (h & t & ->). now exists h, t.
Qed.

(** The chunks read so far are a prefix of the text. *)
Lemma chunks_read_prefix (cs : N) (content : text) (t : nat) :
  exists d, content = concat (firstn t (chunks cs content)) ++ d.
Proof.
  destruct (N.eqb_spec cs 0) as [->|Hcs].
  - rewrite chunks_zero, firstn_nil. now exists content.
  - exists (concat (skipn t (chunks cs content))).
    rewrite <- firstn_concat_prefix. symmetry. now apply concat_chunks.
Qed.

(** X1.  Between two chunks nothing is lost or repeated: after [t] chunks the
    lines seen, each followed by a newline, and then the carry buffer spell
    exactly the text read so far; the carry buffer holds no newline. *)
Theorem chunk_boundary_reconstruction (L : pylib) (cs : N)
    (self : LogAnalyzerThread) (rx : option (regex L)) (content : text)
    (t : nat) :
  compile_pattern L self = Some rx ->
  t <= length (chunks cs content) ->
  exists st,
    _analyze_file L cs self (Some (File content None)) (Some t) = Some (st, Some 0) /\
    concat (map (fun l => l ++ [nl]) (map snd (seen st))) ++ buffer st =
      concat (firstn t (chunks cs content)) /\
    newline_free (buffer st) = true.
Proof.
  intros Hrx Ht. eexists.
  split; [exact (analyze_file_stopped_after L cs self content Hrx Ht)|].
  cbn [seen buffer state_of]. rewrite numbered_snd. split.
  - apply unlines_split.
  - apply last_split_free.
Qed.

Lemma chunk_boundary_reconstruction_witness :
  exists st,
    _analyze_file sample_lib 7 demo_literal (Some (File demo_text None)) (Some 2)
      = Some (st, Some 0) /\
    concat (map (fun l => l ++ [nl]) (map snd (seen st))) ++ buffer st =
      concat (firstn 2 (chunks 7 demo_text)) /\
    newline_free (buffer st) = true.
Proof.
  apply (@chunk_boundary_reconstruction sample_lib 7 demo_literal None demo_text 2);
    [reflexivity | vm_compute; lia].
Defined.

(** X2.  The carry buffer kept between two chunks is the beginning of one line
    of the file, so it is never longer than the file's longest line. *)
Theorem carry_buffer_within_a_line (L : pylib) (cs : N)
    (self : LogAnalyzerThread) (rx : option (regex L)) (content : text)
    (t : nat) :
  compile_pattern L self = Some rx ->
  t <= length (chunks cs content) ->
  exists st,
    _analyze_file L cs self (Some (File content None)) (Some t) = Some (st, Some 0) /\
    (exists line more,
       In line (split nl content) /\ line = buffer st ++ more) /\
    length (buffer st) <= list_max (map (@length ascii) (split nl content)).
Proof.
  intros Hrx Ht. eexists.
  split; [exact (analyze_file_stopped_after L cs self content Hrx Ht)|].
  cbn [buffer state_of].
  set (c := concat (firstn t (chunks cs content))).
  destruct (chunks_read_prefix cs content t) as [d Hd]. fold c in Hd.
  destruct (split_continues _ d (last_split_free c)) as (h & tl & Hs).
  assert (Hin : In (last (split nl c) [] ++ h) (split nl content)).
  { rewrite Hd at 1. rewrite split_app, Hs. apply in_or_app. right. now left. }
  split.
  - now exists (last (split nl c) [] ++ h), h.
  - assert (Hmax : Forall (fun k => k <= list_max (map (@length ascii) (split nl content)))
                     (map (@length ascii) (split nl content)))
      by now apply list_max_le.
    rewrite Forall_forall in Hmax.
    specialize (Hmax _ (in_map (@length ascii) _ _ Hin)).
    rewrite length_app in Hmax. lia.
Qed.

Lemma carry_buffer_within_a_line_witness :
  exists st,
    _analyze_file sample_lib 7 demo_literal (Some (File demo_text None)) (Some 2)
      = Some (st, Some 0) /\
    (exists line more,
       In line (split nl demo_text) /\ line = buffer st ++ more) /\
    length (buffer st) <= list_max (map (@length ascii) (split nl demo_text)).
Proof.
  apply (@carry_buffer_within_a_line sample_lib 7 demo_literal None demo_text 2);
    [reflexivity | vm_compute; lia].
Defined.

(** ** What does not depend on the chunk size *)

Lemma analyze_file_steady (L : pylib) (cs : N) (self : LogAnalyzerThread)
    (nd : node) :
  (1 <= cs)%N ->
  read_safe nd = true ->
  _analyze_file L cs self (Some nd) None =
  Some (match compile_pattern L self, nd with
        | Some rx, File content _ => flushed L self rx content
        | _, _ => initial
        end, None).
Proof.
  intros Hcs Hsafe.
  destruct (compile_pattern L self) as [rx|] eqn:Hrx.
  - destruct nd as [content [j|]| |entries]; try discriminate;
      try (unfold _analyze_file; rewrite Hrx; reflexivity).
    rewrite (analyze_file_spec L cs self content None None Hrx). cbn zeta.
    cbn [exit_of reach bound]. rewrite firstn_all, concat_chunks by lia.
    now rewrite flush_never_stopped.
  - unfold _analyze_file. now rewrite Hrx.
Qed.

Lemma for_log_files_steady (L : pylib) (cs1 cs2 : N) (self : LogAnalyzerThread)
    (files : list (text * node)) (acc : list text) (out : list signal) :
  (1 <= cs1)%N -> (1 <= cs2)%N ->
  forallb (fun e => read_safe (snd e)) files = true ->
  for_log_files L cs1 self files None acc out =
  for_log_files L cs2 self files None acc out.
Proof.
  intros H1 H2. revert acc out.
  induction files as [|[name nd] more IH]; intros acc out Hs; [reflexivity|].
  cbn [forallb snd] in Hs. apply andb_true_iff in Hs as [Hnd Hmore].
  cbn [for_log_files running].
  rewrite (@analyze_file_steady L cs1 self nd H1 Hnd).
  rewrite (@analyze_file_steady L cs2 self nd H2 Hnd).
  now apply IH.
Qed.

Lemma forallb_filter (A : Type) (f g : A -> bool) (l : list A) :
  forallb f l = true -> forallb f (filter g l) = true.
Proof.
  induction l as [|x l IH]; [reflexivity|]. cbn [forallb filter].
  rewrite andb_true_iff. intros [Hx Hl].
  destruct (g x); cbn [forallb]; [rewrite Hx|]; auto.
Qed.

(** X3.  The size of the chunks is not observable: as long as no read fails, a
    run that is never stopped emits the same signals, with the same
    records, for every chunk size of at least one character. *)
Theorem chunk_size_not_observable (L : pylib) (cs1 cs2 : N)
    (self : LogAnalyzerThread) (target : node) :
  (1 <= cs1)%N -> (1 <= cs2)%N ->
  steady target = true ->
  run L cs1 self (Some target) None = run L cs2 self (Some target) None.
Proof.
  intros H1 H2 Hs. unfold run. destruct (is_directory self).
  - rewrite (@for_log_files_steady L cs1 cs2 self _ [] [] H1 H2); [reflexivity|].
    destruct target as [content fl| |entries]; try reflexivity.
    cbn [glob steady] in *. rewrite forallb_app.
    now rewrite !forallb_filter.
  - assert (Hsafe : read_safe target = true)
      by (destruct target as [content [j|]| |entries]; auto; discriminate).
    now rewrite (@analyze_file_steady L cs1 self target H1 Hsafe),
                (@analyze_file_steady L cs2 self target H2 Hsafe).
Qed.

Lemma chunk_size_not_observable_witness :
  run sample_lib 1 demo_walk (Some (Dir mixed_dir)) None =
  run sample_lib chunk_size demo_walk (Some (Dir mixed_dir)) None.
Proof.
  apply (@chunk_size_not_observable sample_lib 1 chunk_size demo_walk (Dir mixed_dir));
    [lia | vm_compute; discriminate | reflexivity].
Defined.

(** ** What a stop or a failing read can do *)

Lemma concat_map_split_at (A B : Type) (f : A -> list B) (l : list A) (n : nat) :
  concat (map f l) = concat (map f (firstn n l)) ++ concat (map f (skipn n l)).
Proof. now rewrite <- concat_app, <- map_app, firstn_skipn. Qed.

Lemma skipn_nth_error (A : Type) (l : list A) (n : nat) (x : A) :
  nth_error l n = Some x -> exists more, skipn n l = x :: more.
Proof.
  revert n. induction l as [|y l IH]; intros [|n]; cbn; try discriminate.
  - intros [= ->]. now exists l.
  - apply IH.
Qed.

(** X4.  Stopping only truncates: whatever the target, the mode and the moment
    of the stop, the run ends with [finished], and the records it carries
    are a prefix of those the same run carries when it is never stopped. *)
Theorem stop_only_truncates (L : pylib) (cs : N) (self : LogAnalyzerThread)
    (target : option node) (k : clock) :
  exists out k' res out0 res0 more,
    run L cs self target k = Some (out ++ [finished res], k') /\
    run L cs self target None = Some (out0 ++ [finished res0], None) /\
    res0 = res ++ more.
Proof.
  destruct k as [t|].
  - unfold run. destruct (is_directory self).
    + set (files := glob (txt ".log") target ++ glob (txt ".txt") target).
      rewrite for_log_files_unstopped.
      destruct (for_log_files_clock L cs self files t [] [])
        as (n & p & out & t' & Hrun & Hn & Hp).
      rewrite Hrun. cbn [app].
      rewrite (@concat_map_split_at _ _ _ files n).
      set (yield := fun e : text * node => scan_results L cs self (snd e) None).
      destruct Hp as [->|(e & more & He & Hfull)].
      * exists out, (Some t'), (concat (map yield (firstn n files)) ++ []),
          (map announce files),
          (concat (map yield (firstn n files)) ++ concat (map yield (skipn n files))),
          (concat (map yield (skipn n files))).
        repeat split. now rewrite app_nil_r.
      * destruct (@skipn_nth_error _ _ _ _ He) as [rest Hskip]. rewrite Hskip.
        cbn [map concat].
        replace (yield e) with (p ++ more) by (symmetry; exact Hfull).
        exists out, (Some t'), (concat (map yield (firstn n files)) ++ p),
          (map announce files),
          (concat (map yield (firstn n files)) ++ (p ++ more) ++ concat (map yield rest)),
          (more ++ concat (map yield rest)).
        repeat split. now rewrite <- !app_assoc.
    + destruct target as [nd|].
      * destruct (scan_under_clock L cs self nd t)
          as (st & t' & more & Hst & Hfull & _).
        rewrite Hst. unfold scan_results in Hfull.
        destruct (analyze_file_unstopped L cs self (Some nd)) as [st0 Hst0].
        rewrite Hst0 in *.
        exists [progress (txt "Processing file...")], (Some t'), (results st),
          [progress (txt "Processing file...")], (results st0), more.
        now repeat split.
      * unfold _analyze_file.
        destruct (compile_pattern L self);
          exists [progress (txt "Processing file...")], (Some t), [],
            [progress (txt "Processing file...")], [], []; now repeat split.
  - unfold run. destruct (is_directory self).
    + rewrite for_log_files_unstopped. cbn [app].
      eexists _, None, _, _, _, []. repeat split. now rewrite app_nil_r.
    + destruct (analyze_file_unstopped L cs self target) as [st0 Hst0].
      rewrite Hst0.
      exists [progress (txt "Processing file...")], None, (results st0),
        [progress (txt "Processing file...")], (results st0), [].
      repeat split. now rewrite app_nil_r.
Qed.

(** X5.  A failing read only truncates, too: the records of a file whose read
    number [j] fails are a prefix of the records of the same file read
    without failure. *)
Theorem read_failure_only_truncates (L : pylib) (cs : N)
    (self : LogAnalyzerThread) (content : text) (j : nat) :
  exists more,
    scan_results L cs self (File content None) None =
    scan_results L cs self (File content (Some j)) None ++ more.
Proof.
  unfold scan_results.
  destruct (compile_pattern L self) as [rx|] eqn:Hrx.
  - rewrite !(analyze_file_spec L cs self content _ None Hrx). cbn zeta.
    set (chs := chunks cs content).
    cbn [exit_of reach bound]. rewrite firstn_all, flush_never_stopped.
    destruct (Nat.leb_spec j (length chs)) as [Hj|Hj].
    + rewrite Nat.min_l by assumption.
      destruct (firstn_le_concat chs Hj) as [b Hb].
      rewrite firstn_all in Hb. rewrite Hb.
      apply state_prefix_flushed.
    + rewrite Nat.min_r by lia. rewrite firstn_all, flush_never_stopped.
      exists []. now rewrite app_nil_r.
  - unfold _analyze_file. rewrite Hrx. now exists [].
Qed.

(** ** How many lines a file has *)

Lemma split_length (s : text) : length (split nl s) = S (newlines s).
Proof.
  unfold newlines. induction s as [|c r IH]; [reflexivity|].
  cbn [split count_occ].
  destruct (Ascii.eqb_spec c nl) as [->|Hc].
  - destruct (ascii_dec nl nl); [|easy]. cbn [length]. now rewrite IH.
  - destruct (ascii_dec c nl); [easy|].
    destruct (split nl r) as [|h t]; cbn [length] in *; [discriminate|exact IH].
Qed.

Lemma complete_lines_length (s : text) : length (complete_lines s) = newlines s.
Proof.
  unfold complete_lines.
  pose proof (split_length s) as H.
  rewrite (app_removelast_last [] (split_not_nil nl s)), length_app in H.
  change (length [last (split nl s) []]) with 1 in H.
  rewrite Nat.add_1_r in H. now injection H.
Qed.

(** X6.  A scan that is never stopped numbers as many lines as the text has
    newline characters, plus one when the text ends in an unterminated,
    non-empty fragment; an empty file has no line. *)
Theorem line_count_is_newline_count (L : pylib) (cs : N)
    (self : LogAnalyzerThread) (rx : option (regex L)) (content : text) :
  (1 <= cs)%N ->
  compile_pattern L self = Some rx ->
  exists st,
    _analyze_file L cs self (Some (File content None)) None = Some (st, None) /\
    line_number st =
      newlines content + (if is_empty (last (split nl content) []) then 0 else 1).
Proof.
  intros Hcs Hrx. eexists. split.
  - rewrite (@analyze_file_steady L cs self (File content None) Hcs eq_refl).
    now rewrite Hrx.
  - cbn [line_number flushed].
    destruct (last (split nl content) []) as [|x frag] eqn:E; cbn [is_empty].
    + rewrite (whole_lines_complete content E), complete_lines_length. lia.
    + rewrite whole_lines_carry by now rewrite E.
      rewrite length_app, complete_lines_length. cbn [length]. lia.
Qed.

Lemma line_count_is_newline_count_witness :
  exists st,
    _analyze_file sample_lib chunk_size demo_literal (Some (File demo_text None)) None
      = Some (st, None) /\
    line_number st =
      newlines demo_text + (if is_empty (last (split nl demo_text) []) then 0 else 1).
Proof.
  apply (@line_count_is_newline_count sample_lib chunk_size demo_literal None demo_text);
    [vm_compute; discriminate | reflexivity].
Defined.

(** * Further properties of the screen *)

(** ** From the click to the display *)

(** X8.  A target that cannot be opened (nothing there, no permission, a
    directory) is not reported as an error: the single-file run announces
    the file and ends with [finished] on the empty list, without reading
    the stop flag, and the screen then shows the same as for a file without
    any match. *)
Theorem unopenable_file_shows_no_matches (L : pylib) (cs : N)
    (self : LogAnalyzerThread) (target : option node) (k : clock)
    (scr : LogAnalyticsScreen) :
  is_directory self = false ->
  open target = None ->
  run L cs self target k =
    Some ([progress (txt "Processing file..."); finished []], k) /\
  status_label (_on_analysis_finished scr []) =
    txt "Analysis complete: No matches found" /\
  results_text (_on_analysis_finished scr []) = [txt "No matches found"].
Proof.
  intros Hdir Hopen. repeat split.
  unfold run, _analyze_file. rewrite Hdir, Hopen.
  now destruct (compile_pattern L self).
Qed.

Lemma unopenable_file_shows_no_matches_witness :
  run sample_lib chunk_size demo_literal (demo_fs (txt "gone.log")) (Some 5) =
    Some ([progress (txt "Processing file..."); finished []], Some 5) /\
  status_label (_on_analysis_finished ready_screen []) =
    txt "Analysis complete: No matches found" /\
  results_text (_on_analysis_finished ready_screen []) = [txt "No matches found"].
Proof.
  apply (@unopenable_file_shows_no_matches sample_lib chunk_size demo_literal
           (demo_fs (txt "gone.log")) (Some 5) ready_screen); reflexivity.
Defined.

Lemma is_empty_false (s : text) : is_empty s = false <-> s <> [].
Proof. destruct s; cbn; split; congruence. Qed.

(** X9.  A click on Search starts a thread exactly when the path and the
    pattern are not empty and something exists at the path; the thread then
    carries the two fields, the state of the regex box and whether the path
    is a directory, and the screen switches to its running state (Search
    disabled, Cancel enabled). *)
Theorem search_starts_iff_inputs_valid (fs : text -> option node)
    (scr : LogAnalyticsScreen) :
  (snd (_on_search_clicked fs scr) <> None <->
   path_input scr <> [] /\ pattern_input scr <> [] /\ fs (path_input scr) <> None) /\
  (forall t,
     snd (_on_search_clicked fs scr) = Some t ->
     t = {| file_path := path_input scr;
            pattern := pattern_input scr;
            is_regex := regex_checkbox scr;
            is_directory := isdir fs (path_input scr) |} /\
     _analyzer_thread (fst (_on_search_clicked fs scr)) = Some t /\
     search_button (fst (_on_search_clicked fs scr)) = false /\
     cancel_button (fst (_on_search_clicked fs scr)) = true /\
     status_label (fst (_on_search_clicked fs scr)) = txt "Analyzing...").
Proof.
  unfold _on_search_clicked, exists_.
  destruct (path_input scr) as [|a p]; cbn [is_empty orb snd fst].
  { split; [split; [easy|now intros [H _]]|discriminate]. }
  destruct (pattern_input scr) as [|b q]; cbn [is_empty orb snd fst].
  { split; [split; [easy|now intros (_ & H & _)]|discriminate]. }
  destruct (fs (a :: p)) as [nd|]; cbn [negb snd fst].
  - split; [split; [intros _; repeat split; discriminate|discriminate]|].
    intros t [= <-]. now repeat split.
  - split; [split; [easy|now intros (_ & _ & H)]|discriminate].
Qed.

Lemma shown_records_finished (scr : LogAnalyticsScreen) (res : list text) :
  forallb newline_free res = true ->
  shown_records (_on_analysis_finished scr res) = firstn 1000 res.
Proof.
  intros Hfree. destruct res as [|r more]; [reflexivity|].
  unfold shown_records, _on_analysis_finished. cbn [results_text app].
  apply split_join; [discriminate|]. now apply forallb_firstn.
Qed.

(** X10.  From the click to the display, for a readable file: the search starts,
    the thread, never stopped, hands over the records of the matching lines
    of the whole text, the display shows the first 1000 of them, the status
    gives their number (or says that there is none), and the buttons are
    back to idle. *)
Theorem search_to_display (L : pylib) (cs : N) (fs : text -> option node)
    (scr : LogAnalyticsScreen) (content : text) (rx : option (regex L)) :
  is_empty (path_input scr) = false ->
  is_empty (pattern_input scr) = false ->
  fs (path_input scr) = Some (File content None) ->
  (1 <= cs)%N ->
  compile_pattern L
    {| file_path := path_input scr; pattern := pattern_input scr;
       is_regex := regex_checkbox scr; is_directory := false |} = Some rx ->
  exists scr1 t res,
    _on_search_clicked fs scr = (scr1, Some t) /\
    run L cs t (fs (path_input scr)) None =
      Some ([progress (txt "Processing file..."); finished res], None) /\
    res = matching L t rx (numbered (whole_lines content)) /\
    shown_records (_on_analysis_finished scr1 res) = firstn 1000 res /\
    status_label (_on_analysis_finished scr1 res) =
      (if length res =? 0 then txt "Analysis complete: No matches found"
       else txt "Analysis complete: " ++ str (length res) ++ txt " matches found") /\
    search_button (_on_analysis_finished scr1 res) = true /\
    cancel_button (_on_analysis_finished scr1 res) = false.
Proof.
  intros Hpath Hpat Hfs Hcs Hrx.
  unfold _on_search_clicked, exists_, isdir. rewrite Hpath, Hpat, Hfs.
  cbn [orb negb].
  set (t := {| file_path := path_input scr; pattern := pattern_input scr;
               is_regex := regex_checkbox scr; is_directory := false |}) in *.
  set (res := matching L t rx (numbered (whole_lines content))).
  eexists _, t, res. split; [reflexivity|]. split.
  - unfold run. cbn [is_directory t].
    rewrite (@analyze_file_steady L cs t (File content None) Hcs eq_refl).
    now rewrite Hrx.
  - split; [reflexivity|]. split.
    + apply shown_records_finished. apply matching_free, whole_lines_free.
    + now destruct res.
Qed.

Lemma search_to_display_witness :
  exists scr1 t res,
    _on_search_clicked scenario_fs ready_screen = (scr1, Some t) /\
    run sample_lib chunk_size t (scenario_fs (path_input ready_screen)) None =
      Some ([progress (txt "Processing file..."); finished res], None) /\
    res = matching sample_lib t None (numbered (whole_lines scenario_text)) /\
    shown_records (_on_analysis_finished scr1 res) = firstn 1000 res /\
    status_label (_on_analysis_finished scr1 res) =
      (if length res =? 0 then txt "Analysis complete: No matches found"
       else txt "Analysis complete: " ++ str (length res) ++ txt " matches found") /\
    search_button (_on_analysis_finished scr1 res) = true /\
    cancel_button (_on_analysis_finished scr1 res) = false.
Proof.
  apply (@search_to_display sample_lib chunk_size scenario_fs ready_screen
           scenario_text None);
    [reflexivity | reflexivity | reflexivity | vm_compute; discriminate | reflexivity].
Defined.

(** The scenario: [alpha], [BETA error], [gamma], searched for the literal
    [error]. *)
Example scenario_run :
  run sample_lib chunk_size demo_literal (scenario_fs (txt "app.log")) None =
    Some ([progress (txt "Processing file..."); finished [txt "2: BETA error"]], None) /\
  status_label (_on_analysis_finished ready_screen [txt "2: BETA error"]) =
    txt "Analysis complete: 1 matches found".
Proof. split; vm_compute; reflexivity. Qed.

(** ** Presets, cancelling, navigating *)

(** X11.  Every preset of the combo box other than [Custom] is in the catalog:
    choosing it and clicking Search, with a path that exists, starts a
    regex scan for the preset's pattern.  [Custom] is not, and choosing it
    leaves the screen as it is. *)
Theorem preset_then_search_starts_regex_scan (fs : text -> option node)
    (scr : LogAnalyticsScreen) (preset : text) :
  In preset preset_items ->
  preset <> txt "Custom" ->
  is_empty (path_input scr) = false ->
  exists_ fs (path_input scr) = true ->
  (exists pat scr1,
     dict_get _preset_patterns preset = Some (pat, true) /\
     _on_search_clicked fs (_on_preset_changed scr preset) =
       (scr1, Some {| file_path := path_input scr;
                      pattern := pat;
                      is_regex := true;
                      is_directory := isdir fs (path_input scr) |})) /\
  _on_preset_changed scr (txt "Custom") = scr.
Proof.
  intros Hin Hcustom Hpath Hex. split; [|reflexivity].
  unfold preset_items in Hin. cbn [In] in Hin.
  repeat (destruct Hin as [<-|Hin]; [try easy|]); [..|easy];
    (eexists _, _; split; [reflexivity|];
     unfold _on_search_clicked, _on_preset_changed;
     match goal with
     | |- context [dict_get _preset_patterns ?p] =>
         let v := eval vm_compute in (dict_get _preset_patterns p) in
         change (dict_get _preset_patterns p) with v
     end;
     cbn [path_input pattern_input regex_checkbox];
     rewrite Hpath, Hex; reflexivity).
Qed.

Lemma preset_then_search_starts_regex_scan_witness :
  (exists pat scr1,
     dict_get _preset_patterns (txt "IP Addresses") = Some (pat, true) /\
     _on_search_clicked demo_fs (_on_preset_changed ready_screen (txt "IP Addresses")) =
       (scr1, Some {| file_path := path_input ready_screen;
                      pattern := pat;
                      is_regex := true;
                      is_directory := isdir demo_fs (path_input ready_screen) |})) /\
  _on_preset_changed ready_screen (txt "Custom") = ready_screen.
Proof.
  apply (@preset_then_search_starts_regex_scan demo_fs ready_screen
           (txt "IP Addresses"));
    [vm_compute; tauto | vm_compute; discriminate | reflexivity | reflexivity].
Defined.

(** X12.  When [_on_analysis_finished] is delivered after [_on_cancel_clicked]
    (the thread emits [finished] also when it was stopped), nothing of the
    cancellation is left on the screen: the status, the result area and the
    buttons are those of a completed analysis. *)
Theorem finished_overrides_cancel (is_running : bool)
    (scr : LogAnalyticsScreen) (res : list text) :
  _on_analysis_finished (fst (_on_cancel_clicked is_running scr)) res =
  _on_analysis_finished scr res.
Proof.
  destruct scr as [p q r st rt sb cb [t|]]; [|reflexivity].
  destruct is_running; [|reflexivity].
  now destruct res.
Qed.

(** X13.  [initialize] never fails and is idempotent: the first call builds the
    widgets and loads the data, every later one (main window navigation
    calls it each time the screen is shown) changes nothing, so inputs,
    results and a running search survive leaving the screen and coming
    back.  [refresh] before the first [initialize] does nothing. *)
Theorem initialize_idempotent (s : screen_object) :
  exists s1,
    initialize s = Some s1 /\
    _initialized s1 = true /\
    initialize s1 = Some s1 /\
    s1 = (if _initialized s then s
          else {| _initialized := true;
                  widgets :=
                    Some {| path_input := [];
                            pattern_input := [];
                            regex_checkbox := false;
                            status_label := txt "Ready";
                            results_text :=
                              [txt "No results yet. Select a log file and search pattern."];
                            search_button := true;
                            cancel_button := false;
                            _analyzer_thread := None |} |}) /\
    refresh new_screen = Some new_screen.
Proof.
  unfold initialize. destruct (_initialized s) eqn:E.
  - exists s. rewrite E. now repeat split.
  - eexists. split; [reflexivity|]. now repeat split.
Qed.

(** ** Which entries a directory scan visits *)

Lemma starts_with_rev_iff (suffix s : text) :
  ends_with suffix s = true <-> exists pre, s = pre ++ suffix.
Proof.
  unfold ends_with. rewrite starts_with_iff. split.
  - intros [post H]. exists (rev post).
    rewrite <- (rev_involutive s), H, rev_app_distr, rev_involutive. reflexivity.
  - intros [pre ->]. exists (rev pre). now rewrite rev_app_distr.
Qed.

Lemma log_and_txt_exclusive (name : text) :
  ends_with (txt ".log") name = true -> ends_with (txt ".txt") name = false.
Proof.
  unfold ends_with. cbn [txt list_ascii_of_string rev app].
  destruct (rev name) as [|a r]; cbn [starts_with]; [discriminate|].
  rewrite andb_true_iff. intros [Ha _].
  apply Ascii.eqb_eq in Ha. subst a. reflexivity.
Qed.

Lemma NoDup_filter_keeps (A : Type) (f : A -> bool) (l : list A) :
  NoDup l -> NoDup (filter f l).
Proof.
  induction 1 as [|x l Hx Hl IH]; cbn; [constructor|].
  destruct (f x); [constructor|]; auto.
  intros Hin. apply filter_In in Hin. tauto.
Qed.

(** X7.  A directory entry is visited exactly when it is an entry of the
    directory itself and its name ends in [.log] or in [.txt] (in lower
    case); when the listing has no repetition, no entry is visited twice. *)
Theorem visits_exactly_logs_and_texts (entries : list (text * node))
    (name : text) (nd : node) :
  (In (name, nd) (visits (Some (Dir entries))) <->
   In (name, nd) entries /\
   exists stem, name = stem ++ txt ".log" \/ name = stem ++ txt ".txt") /\
  (NoDup entries -> NoDup (visits (Some (Dir entries)))).
Proof.
  unfold visits. cbn [glob]. split.
  - rewrite in_app_iff, !filter_In. cbn [fst]. rewrite !starts_with_rev_iff.
    split.
    + intros [[Hin [stem H]]|[Hin [stem H]]]; (split; [assumption|]);
        exists stem; auto.
    + intros [Hin [stem [H|H]]]; [left|right]; (split; [assumption|]);
        now exists stem.
  - intros Hnd.
    assert (Hsplit : forall l1 l2 : list (text * node),
              NoDup l1 -> NoDup l2 ->
              (forall x, In x l1 -> In x l2 -> False) -> NoDup (l1 ++ l2)).
    { induction l1 as [|x l1 IH]; intros l2 H1 H2 Hdis; [exact H2|].
      inversion H1 as [|? ? Hx H1']; subst. cbn. constructor.
      - intros Hin. apply in_app_or in Hin as [Hin|Hin]; [auto|].
        apply (Hdis x); [now left|assumption].
      - apply IH; auto. intros y Hy1 Hy2. apply (Hdis y); [now right|assumption]. }
    apply Hsplit; try now apply NoDup_filter_keeps.
    intros [n x] H1 H2. apply filter_In in H1 as [_ H1], H2 as [_ H2].
    cbn [fst] in *. apply log_and_txt_exclusive in H1. congruence.
Qed.

(** * Properties of the other modules *)

(** ** Dictionaries *)

Lemma dict_get_set_same (A : Type) (d : list (text * A)) (k : text) (v : A) :
  dict_get (dict_set d k v) k = Some v.
Proof.
  induction d as [|[k' v'] more IH]; cbn [dict_set dict_get].
  - now destruct (list_eq_dec ascii_dec k k).
  - destruct (list_eq_dec ascii_dec k k') as [E|E]; cbn [dict_get].
    + now destruct (list_eq_dec ascii_dec k k').
    + now destruct (list_eq_dec ascii_dec k k').
Qed.

Lemma dict_get_set_other (A : Type) (d : list (text * A)) (k k0 : text) (v : A) :
  k0 <> k -> dict_get (dict_set d k v) k0 = dict_get d k0.
Proof.
  intros Hne. induction d as [|[k' v'] more IH]; cbn [dict_set dict_get].
  - now destruct (list_eq_dec ascii_dec k0 k).
  - destruct (list_eq_dec ascii_dec k k') as [E|E]; cbn [dict_get].
    + subst. now destruct (list_eq_dec ascii_dec k0 k').
    + now rewrite IH.
Qed.

Lemma dict_set_sum (d : list (text * nat)) (k : text) (n : nat) :
  list_sum (map snd (dict_set d k n)) + dict_get_or d k 0 =
  list_sum (map snd d) + n.
Proof.
  unfold dict_get_or. induction d as [|[k' v'] more IH]; cbn [dict_set dict_get].
  - cbn. lia.
  - destruct (list_eq_dec ascii_dec k k') as [E|E].
    + cbn [map snd list_sum fold_right]. lia.
    + change (list_sum (map snd ((k', v') :: dict_set more k n)))
        with (v' + list_sum (map snd (dict_set more k n))).
      change (list_sum (map snd ((k', v') :: more)))
        with (v' + list_sum (map snd more)).
      rewrite <- Nat.add_assoc, IH. lia.
Qed.

(** ** Counting tags *)

Lemma list_sum_cons_eq (x : nat) (l : list nat) :
  list_sum (x :: l) = x + list_sum l.
Proof. reflexivity. Qed.

(** X14.  After [_count_tags] the count of every tag has grown by the number of
    elements of the tree that carry it, and the counts together by the
    number of elements of the tree; starting from the empty dictionary, the
    entry of a tag is the number of its elements. *)
Theorem count_tags_counts_elements (e : Element) (counts : list (text * nat))
    (tag : text) :
  dict_get_or (_count_tags e counts) tag 0 =
    dict_get_or counts tag 0 + occurrences tag e /\
  list_sum (map snd (_count_tags e counts)) =
    list_sum (map snd counts) + elements e /\
  dict_get_or (_count_tags e []) tag 0 = occurrences tag e.
Proof.
  assert (G : forall e counts,
            dict_get_or (_count_tags e counts) tag 0 =
              dict_get_or counts tag 0 + occurrences tag e /\
            list_sum (map snd (_count_tags e counts)) =
              list_sum (map snd counts) + elements e).
  { clear e counts. intros e. induction e as [t children IH] using Element_induction.
    intros counts. cbn [_count_tags occurrences elements].
    set (c0 := dict_set counts t (dict_get_or counts t 0 + 1)).
    assert (H0 : dict_get_or c0 tag 0 =
                 dict_get_or counts tag 0 + (if list_eq_dec ascii_dec tag t then 1 else 0)).
    { unfold c0, dict_get_or at 1.
      destruct (list_eq_dec ascii_dec tag t) as [->|Hne].
      - now rewrite dict_get_set_same.
      - rewrite dict_get_set_other by assumption. unfold dict_get_or. lia. }
    assert (S0 : list_sum (map snd c0) = list_sum (map snd counts) + 1).
    { pose proof (dict_set_sum counts t (dict_get_or counts t 0 + 1)). fold c0 in H.
      lia. }
    assert (F : forall c,
              dict_get_or (fold_left (fun c child => _count_tags child c) children c) tag 0 =
                dict_get_or c tag 0 + list_sum (map (occurrences tag) children) /\
              list_sum (map snd (fold_left (fun c child => _count_tags child c) children c)) =
                list_sum (map snd c) + list_sum (map elements children)).
    { induction IH as [|child more Hchild _ IHmore]; intros c;
        cbn [fold_left map]; rewrite ?list_sum_cons_eq;
        change (list_sum (@nil nat)) with 0.
      - split; lia.
      - destruct (Hchild c) as [Hg Hs].
        destruct (IHmore (_count_tags child c)) as [Hg' Hs'].
        split; lia. }
    destruct (F c0) as [F1 F2]. split; lia. }
  destruct (G e counts) as [H1 H2]. repeat split; auto.
  now rewrite (proj1 (G e [])).
Qed.

(** ** The table model *)

(** X15.  A row appended is the row read back at the old row count, the rows
    before it are unchanged, the row count grows by one, and reading
    outside the rows, negative indices included, gives the empty row. *)
Theorem append_then_read_row (cell : Type) (m : TableModel.model cell)
    (row : list cell) (i : Z) :
  let m' := TableModel.appendRow m row in
  TableModel.rowCount m' = S (TableModel.rowCount m) /\
  TableModel.getRowData m' (Z.of_nat (TableModel.rowCount m)) = row /\
  ((0 <= i < Z.of_nat (TableModel.rowCount m))%Z ->
   TableModel.getRowData m' i = TableModel.getRowData m i) /\
  ((i < 0 \/ Z.of_nat (TableModel.rowCount m') <= i)%Z ->
   TableModel.getRowData m' i = []).
Proof.
  cbn zeta. unfold TableModel.rowCount, TableModel.getRowData, TableModel.appendRow.
  cbn [TableModel._data]. rewrite length_app. cbn [length]. repeat split.
  - lia.
  - destruct (Z.leb_spec 0 (Z.of_nat (length (TableModel._data m)))); [|lia].
    destruct (Z.ltb_spec (Z.of_nat (length (TableModel._data m)))
                (Z.of_nat (length (TableModel._data m) + 1))); [|lia].
    cbn [andb]. rewrite Nat2Z.id, app_nth2, Nat.sub_diag by lia. reflexivity.
  - intros [H1 H2].
    destruct (Z.leb_spec 0 i); [|lia].
    destruct (Z.ltb_spec i (Z.of_nat (length (TableModel._data m) + 1))); [|lia].
    destruct (Z.ltb_spec i (Z.of_nat (length (TableModel._data m)))); [|lia].
    cbn [andb]. apply app_nth1. lia.
  - intros H.
    destruct (Z.leb_spec 0 i); [|reflexivity].
    destruct (Z.ltb_spec i (Z.of_nat (length (TableModel._data m) + 1))); [lia|].
    reflexivity.
Qed.

(** X16.  Headers outlive the data: [clear] and a [setData] without headers, or
    with an empty header list, keep the headers there were, so that with
    headers the column count stays the number of headers whatever the rows
    are. *)
Theorem headers_outlive_data (cell : Type) (m : TableModel.model cell)
    (data : list (list cell)) :
  TableModel._headers m <> [] ->
  TableModel.columnCount (TableModel.clear m) = length (TableModel._headers m) /\
  TableModel.rowCount (TableModel.clear m) = 0 /\
  TableModel.setData m data None = TableModel.setData m data (Some []) /\
  TableModel._headers (TableModel.setData m data (Some [])) = TableModel._headers m /\
  TableModel.columnCount (TableModel.setData m data None) =
    length (TableModel._headers m).
Proof.
  intros H. unfold TableModel.columnCount, TableModel.clear, TableModel.setData,
    TableModel.rowCount. cbn [TableModel._headers TableModel._data].
  destruct (TableModel._headers m); [easy|]. now repeat split.
Qed.

Lemma headers_outlive_data_witness :
  let m := TableModel.init (Some [[1; 2]; [3; 4]]) (Some [txt "ID"; txt "Name"]) in
  TableModel.columnCount (TableModel.clear m) = length (TableModel._headers m) /\
  TableModel.rowCount (TableModel.clear m) = 0 /\
  TableModel.setData m [[5]] None = TableModel.setData m [[5]] (Some []) /\
  TableModel._headers (TableModel.setData m [[5]] (Some [])) = TableModel._headers m /\
  TableModel.columnCount (TableModel.setData m [[5]] None) =
    length (TableModel._headers m).
Proof.
  apply (@headers_outlive_data nat
           (TableModel.init (Some [[1; 2]; [3; 4]]) (Some [txt "ID"; txt "Name"]))
           [[5]]).
  discriminate.
Defined.

(** ** Conversion jobs *)

(** X17.  A job never has more completed batches than batches, has as many
    exactly when every batch has an end time, and has errors exactly when
    its error list is not empty. *)
Theorem completed_batches_bounded (datetime : Type)
    (j : JobModel.ConversionJob datetime) :
  JobModel.completed_batches j <= JobModel.total_batches j /\
  (JobModel.completed_batches j = JobModel.total_batches j <->
   Forall (fun b => JobModel.end_time b <> None) (JobModel.batches j)) /\
  (JobModel.has_errors j = true <-> JobModel.errors j <> []).
Proof.
  unfold JobModel.completed_batches, JobModel.total_batches, JobModel.has_errors.
  assert (G : forall bs : list (JobModel.BatchInfo datetime),
            let done := list_sum (map (fun _ => 1)
                          (filter (fun b => match JobModel.end_time b with
                                            | Some _ => true | None => false end) bs)) in
            done <= length bs /\
            (done = length bs <-> Forall (fun b => JobModel.end_time b <> None) bs)).
  { induction bs as [|b bs [IH1 IH2]]; cbn zeta in *.
    - split; [reflexivity|]. split; [constructor|reflexivity].
    - cbn [filter length]. destruct (JobModel.end_time b) eqn:E;
        cbn [map]; rewrite ?list_sum_cons_eq; (split; [lia|]); split.
      + intros H. constructor; [congruence|]. apply IH2. lia.
      + intros H. inversion H; subst. apply IH2 in H3. lia.
      + intros H. lia.
      + intros H. inversion H; subst. congruence. }
  destruct (G (JobModel.batches j)) as [G1 G2]. repeat split; auto.
  - apply G2.
  - apply G2.
  - intros H. destruct (JobModel.errors j); [discriminate|discriminate].
  - intros H. destruct (JobModel.errors j); [easy|reflexivity].
Qed.

(** ** The plugin manager *)

Lemma dict_get_del_other (A : Type) (d : list (text * A)) (k k0 : text) :
  k0 <> k -> dict_get (dict_del d k) k0 = dict_get d k0.
Proof.
  intros Hne. induction d as [|[k' v'] more IH]; cbn [dict_del dict_get]; [reflexivity|].
  destruct (list_eq_dec ascii_dec k k') as [E|E]; cbn [dict_get].
  - subst. now destruct (list_eq_dec ascii_dec k0 k').
  - now rewrite IH.
Qed.

Lemma dict_get_none_iff (A : Type) (d : list (text * A)) (k : text) :
  dict_get d k = None <-> ~ In k (map fst d).
Proof.
  induction d as [|[k' v'] more IH]; cbn [dict_get map fst In]; [tauto|].
  destruct (list_eq_dec ascii_dec k k') as [E|E].
  - split; [discriminate|]. intros H. exfalso. apply H. now left.
  - rewrite IH. split; [intros H [H1|H1]; [congruence|contradiction]|tauto].
Qed.

Lemma dict_del_keys (A : Type) (d : list (text * A)) (k k0 : text) :
  In k0 (map fst (dict_del d k)) -> In k0 (map fst d).
Proof.
  induction d as [|[k' v'] more IH]; cbn [dict_del map fst In]; [tauto|].
  destruct (list_eq_dec ascii_dec k k'); cbn [map fst In]; tauto.
Qed.

Lemma dict_get_del_same (A : Type) (d : list (text * A)) (k : text) :
  NoDup (map fst d) -> dict_get (dict_del d k) k = None.
Proof.
  induction d as [|[k' v'] more IH]; cbn [dict_del dict_get map fst]; [reflexivity|].
  intros Hnd. inversion Hnd as [|? ? Hk Hmore]; subst.
  destruct (list_eq_dec ascii_dec k k') as [E|E]; cbn [dict_get].
  - subst. now apply dict_get_none_iff.
  - destruct (list_eq_dec ascii_dec k k'); [contradiction|]. auto.
Qed.

Lemma dict_set_keys (A : Type) (d : list (text * A)) (k k0 : text) (v : A) :
  In k0 (map fst (dict_set d k v)) <-> k0 = k \/ In k0 (map fst d).
Proof.
  induction d as [|[k' v'] more IH]; cbn [dict_set map fst In].
  - intuition congruence.
  - destruct (list_eq_dec ascii_dec k k') as [E|E]; cbn [map fst In].
    + subst. intuition congruence.
    + rewrite IH. intuition congruence.
Qed.

Lemma dict_set_nodup (A : Type) (d : list (text * A)) (k : text) (v : A) :
  NoDup (map fst d) -> NoDup (map fst (dict_set d k v)).
Proof.
  induction d as [|[k' v'] more IH]; cbn [dict_set map fst]; intros Hnd.
  - constructor; [easy|constructor].
  - inversion Hnd as [|? ? Hk Hmore]; subst.
    destruct (list_eq_dec ascii_dec k k') as [E|E]; cbn [map fst].
    + now constructor.
    + constructor; [|auto]. rewrite dict_set_keys. intros [H|H]; congruence.
Qed.

Lemma dict_del_nodup (A : Type) (d : list (text * A)) (k : text) :
  NoDup (map fst d) -> NoDup (map fst (dict_del d k)).
Proof.
  induction d as [|[k' v'] more IH]; cbn [dict_del map fst]; intros Hnd;
    [constructor|].
  inversion Hnd as [|? ? Hk Hmore]; subst.
  destruct (list_eq_dec ascii_dec k k'); cbn [map fst]; [assumption|].
  constructor; [|auto]. intros H. now apply dict_del_keys in H.
Qed.

Section PluginFacts.

Variable plugin : Type.

Lemma discard_in (name n : text) (s : list text) :
  In n (PluginManager.discard name s) <-> In n s /\ n <> name.
Proof.
  unfold PluginManager.discard. rewrite filter_In.
  destruct (list_eq_dec ascii_dec n name); intuition congruence.
Qed.

Lemma mem_iff (name : text) (s : list text) :
  PluginManager.mem name s = true <-> In name s.
Proof.
  unfold PluginManager.mem.
  destruct (in_dec (list_eq_dec ascii_dec) name s); intuition congruence.
Qed.

Lemma add_in (name n : text) (s : list text) :
  In n (PluginManager.add name s) <-> n = name \/ In n s.
Proof.
  unfold PluginManager.add. destruct (PluginManager.mem name s) eqn:E.
  - apply mem_iff in E. intuition congruence.
  - cbn [In]. intuition congruence.
Qed.

Lemma add_nodup (name : text) (s : list text) :
  NoDup s -> NoDup (PluginManager.add name s).
Proof.
  intros H. unfold PluginManager.add. destruct (PluginManager.mem name s) eqn:E;
    [assumption|].
  constructor; [|assumption]. intros Hin. apply mem_iff in Hin. congruence.
Qed.

Lemma load_consistent (m : PluginManager.manager plugin) (n : text) (o : PluginManager.load_outcome plugin) :
  plugins_consistent m ->
  plugins_consistent (fst (PluginManager.load_plugin m n o)) /\
  (snd (PluginManager.load_plugin m n o) = true ->
   dict_get (PluginManager._plugins (fst (PluginManager.load_plugin m n o))) n <> None).
Proof.
  intros (Hk & He & Hl).
  destruct o as [|p logged];
    cbn [fst snd PluginManager.load_plugin PluginManager._plugins
         PluginManager._enabled_plugins]; [now repeat split|].
  unfold plugins_consistent.
  cbn [PluginManager._plugins PluginManager._enabled_plugins].
  repeat split; auto.
  - now apply dict_set_nodup.
  - rewrite Forall_forall in *. intros x Hx.
    destruct (list_eq_dec ascii_dec x n) as [->|Hne].
    + now rewrite dict_get_set_same.
    + rewrite dict_get_set_other by assumption. auto.
  - intros _. now rewrite dict_get_set_same.
Qed.

Lemma perform_consistent (m : PluginManager.manager plugin) (c : PluginManager.call plugin) :
  plugins_consistent m -> plugins_consistent (PluginManager.perform m c).
Proof.
  intros Hm. destruct c as [n o|n ok|n o ok|n]; cbn [PluginManager.perform].
  - now apply load_consistent.
  - unfold PluginManager.unload_plugin.
    destruct (dict_get (PluginManager._plugins m) n); [|assumption].
    destruct ok; [|assumption]. destruct Hm as (Hk & He & Hl).
    unfold plugins_consistent;
      cbn [fst snd PluginManager._plugins PluginManager._enabled_plugins]; repeat split.
    + now apply dict_del_nodup.
    + now apply NoDup_filter_keeps.
    + rewrite Forall_forall in *. intros x Hx. apply discard_in in Hx as [Hx Hne].
      rewrite dict_get_del_other by assumption. auto.
  - unfold PluginManager.enable_plugin.
    destruct (dict_get (PluginManager._plugins m) n) as [p|] eqn:E.
    + rewrite E. destruct ok; [|assumption]. destruct Hm as (Hk & He & Hl).
      unfold plugins_consistent;
      cbn [fst snd PluginManager._plugins PluginManager._enabled_plugins]; repeat split; auto using add_nodup.
      rewrite Forall_forall in *. intros x Hx. apply add_in in Hx as [->|Hx];
        [congruence|auto].
    + destruct (load_consistent n o Hm) as [Hm1 Hgo].
      destruct (PluginManager.load_plugin m n o) as [m1 go]. cbn [fst snd] in *.
      destruct go; [|assumption].
      destruct (dict_get (PluginManager._plugins m1) n) eqn:E1; [|assumption].
      destruct ok; [|assumption]. destruct Hm1 as (Hk & He & Hl).
      unfold plugins_consistent;
      cbn [fst snd PluginManager._plugins PluginManager._enabled_plugins]; repeat split; auto using add_nodup.
      rewrite Forall_forall in *. intros x Hx. apply add_in in Hx as [->|Hx];
        [congruence|auto].
  - unfold PluginManager.disable_plugin.
    destruct (PluginManager.mem n (PluginManager._enabled_plugins m)); [|assumption].
    destruct Hm as (Hk & He & Hl). unfold plugins_consistent;
      cbn [fst snd PluginManager._plugins PluginManager._enabled_plugins]; repeat split; auto.
    + now apply NoDup_filter_keeps.
    + rewrite Forall_forall in *. intros x Hx. apply discard_in in Hx as [Hx _]. auto.
Qed.

Lemma reachable_consistent (calls : list (PluginManager.call plugin)) :
  plugins_consistent (fold_left (@PluginManager.perform plugin) calls
                        (PluginManager.init plugin)).
Proof.
  assert (G : forall m, plugins_consistent m ->
            plugins_consistent (fold_left (@PluginManager.perform plugin) calls m)).
  { induction calls as [|c more IH]; intros m Hm; [assumption|].
    cbn [fold_left]. apply IH. now apply perform_consistent. }
  apply G. repeat split; constructor.
Qed.

End PluginFacts.

(** X18.  Whatever calls were made on a plugin manager, and whatever the plugin
    code did during them, every enabled name is the name of a loaded plugin
    and no name is enabled or loaded twice; so [get_enabled_plugins] skips
    nothing: it returns one plugin for each enabled name. *)
Theorem enabled_plugins_are_loaded (plugin : Type)
    (calls : list (PluginManager.call plugin)) :
  let m := fold_left (@PluginManager.perform plugin) calls (PluginManager.init plugin) in
  (forall n, In n (PluginManager._enabled_plugins m) ->
             PluginManager.get_plugin m n <> None) /\
  NoDup (PluginManager._enabled_plugins m) /\
  NoDup (map fst (PluginManager._plugins m)) /\
  length (PluginManager.get_enabled_plugins m) =
    length (PluginManager._enabled_plugins m).
Proof.
  cbn zeta. destruct (reachable_consistent calls) as (Hk & He & Hl).
  set (m := fold_left _ calls _) in *. repeat split; auto.
  - now apply Forall_forall.
  - unfold PluginManager.get_enabled_plugins.
    induction Hl as [|n s Hn Hs IH]; [reflexivity|].
    cbn [flat_map length]. inversion He; subst.
    destruct (dict_get (PluginManager._plugins m) n); [|easy].
    cbn [app length]. f_equal. auto.
Qed.

(** X19.  In any state of the manager: [disable_plugin] succeeds exactly on an
    enabled name, takes that name and no other out of the enabled set (the
    names enabled afterwards are exactly the other names enabled before)
    and leaves every plugin loaded; [unload_plugin] on a loaded plugin whose
    [cleanup] goes through leaves it neither loaded nor enabled, the other
    plugins loaded as they were and the other enabled names enabled, and
    changes nothing when [cleanup] raises. *)
Theorem disable_and_unload (plugin : Type)
    (calls : list (PluginManager.call plugin)) (name other : text) :
  let m := fold_left (@PluginManager.perform plugin) calls (PluginManager.init plugin) in
  let d := PluginManager.disable_plugin m name in
  let u := PluginManager.unload_plugin m name true in
  (snd d = true <-> In name (PluginManager._enabled_plugins m)) /\
  ~ In name (PluginManager._enabled_plugins (fst d)) /\
  (In other (PluginManager._enabled_plugins (fst d)) <->
   In other (PluginManager._enabled_plugins m) /\ other <> name) /\
  PluginManager._plugins (fst d) = PluginManager._plugins m /\
  PluginManager.get_plugin (fst d) other = PluginManager.get_plugin m other /\
  (snd u = true <-> PluginManager.get_plugin m name <> None) /\
  PluginManager.get_plugin (fst u) name = None /\
  ~ In name (PluginManager._enabled_plugins (fst u)) /\
  (In other (PluginManager._enabled_plugins (fst u)) <->
   In other (PluginManager._enabled_plugins m) /\ other <> name) /\
  (other <> name ->
   PluginManager.get_plugin (fst u) other = PluginManager.get_plugin m other) /\
  PluginManager.unload_plugin m name false = (m, false).
Proof.
  cbn zeta. destruct (reachable_consistent calls) as (Hk & He & Hl).
  set (m := fold_left _ calls _) in *.
  assert (Hkeep : forall s : list text, ~ In name s ->
            (In other s <-> In other s /\ other <> name)).
  { intros s Hs. split; [|tauto]. intros H. split; [exact H|].
    intros ->. exact (Hs H). }
  unfold PluginManager.disable_plugin, PluginManager.unload_plugin,
    PluginManager.get_plugin.
  destruct (PluginManager.mem name (PluginManager._enabled_plugins m)) eqn:Em.
  - apply mem_iff in Em as Hin. cbn [fst snd PluginManager._enabled_plugins
      PluginManager._plugins]. split; [tauto|]. split.
    { intros H. apply discard_in in H. tauto. }
    split; [apply discard_in|]. split; [reflexivity|].
    split; [reflexivity|].
    rewrite Forall_forall in Hl. specialize (Hl _ Hin).
    destruct (dict_get (PluginManager._plugins m) name) eqn:Eg; [|easy].
    cbn [fst snd PluginManager._enabled_plugins PluginManager._plugins].
    split; [easy|]. split; [now apply dict_get_del_same|].
    split; [intros H; apply discard_in in H; tauto|].
    split; [apply discard_in|].
    split; [|reflexivity]. intros Hne. now apply dict_get_del_other.
  - assert (Hnin : ~ In name (PluginManager._enabled_plugins m)).
    { intros H. apply mem_iff in H. congruence. }
    cbn [fst snd]. split; [split; [discriminate|tauto]|].
    split; [assumption|]. split; [now apply Hkeep|].
    split; [reflexivity|]. split; [reflexivity|].
    destruct (dict_get (PluginManager._plugins m) name) eqn:Eg;
      cbn [fst snd PluginManager._enabled_plugins PluginManager._plugins].
    + split; [easy|]. split; [now apply dict_get_del_same|].
      split; [intros H; apply discard_in in H; tauto|].
      split; [apply discard_in|].
      split; [|reflexivity]. intros Hne. now apply dict_get_del_other.
    + split; [easy|]. split; [exact Eg|]. split; [assumption|].
      split; [now apply Hkeep|]. split; [reflexivity|reflexivity].
Qed.

(** ** Settings *)

Lemma update_length (A : Type) (l : list A) (n : nat) (x : A) :
  length (update l n x) = length l.
Proof.
  revert n. induction l as [|y l IH]; intros [|n]; cbn; auto.
Qed.

Lemma nth_error_update_same (A : Type) (l : list A) (n : nat) (x : A) :
  n < length l -> nth_error (update l n x) n = Some x.
Proof.
  revert n. induction l as [|y l IH]; intros [|n]; cbn; try lia; auto.
  intros H. apply IH. lia.
Qed.

Lemma nth_error_update_other (A : Type) (l : list A) (n m : nat) (x : A) :
  m <> n -> nth_error (update l n x) m = nth_error l m.
Proof.
  revert n m. induction l as [|y l IH]; intros [|n] [|m] H; cbn; auto; try easy.
Qed.

Lemma nth_error_in_range (A : Type) (l : list A) (n : nat) (x : A) :
  nth_error l n = Some x -> n < length l.
Proof. intros H. apply nth_error_Some. congruence. Qed.

(** The store after a key is created in the dict at [b]. *)
Lemma created_lookup (h : Settings.heap) (b : nat) (d : Settings.dict)
    (k : text) (x : nat) :
  nth_error h b = Some d ->
  let h1 := update h b (dict_set d k (Settings.VDict (length h))) ++ [[]] in
  length h1 = S (length h) /\
  nth_error h1 (length h) = Some [] /\
  nth_error h1 b = Some (dict_set d k (Settings.VDict (length h))) /\
  (x <> b -> x < length h -> nth_error h1 x = nth_error h x).
Proof.
  intros Hb. cbn zeta. apply nth_error_in_range in Hb as Hlt.
  rewrite length_app, update_length. cbn [length]. repeat split.
  - lia.
  - rewrite nth_error_app2 by (rewrite update_length; lia).
    now rewrite update_length, Nat.sub_diag.
  - rewrite nth_error_app1 by (rewrite update_length; lia).
    now apply nth_error_update_same.
  - intros Hne Hx. rewrite nth_error_app1 by (rewrite update_length; lia).
    now apply nth_error_update_other.
Qed.

(** In a dict that has just been created every path can be written. *)
Lemma set_walk_fresh (keys : list text) (h : Settings.heap) (b : nat)
    (last_key : text) (v : Settings.pyval) :
  nth_error h b = Some [] ->
  snd (Settings.set_walk h (Settings.VDict b) keys last_key v) = true.
Proof.
  revert h b. induction keys as [|k more IH]; intros h b Hb;
    cbn [Settings.set_walk]; rewrite Hb; [reflexivity|].
  cbn [dict_get]. apply IH. now apply (@created_lookup h b [] k 0 Hb).
Qed.

(** A [set] that raises has changed nothing. *)
Lemma set_walk_atomic (keys : list text) (h h' : Settings.heap)
    (settings : Settings.pyval) (last_key : text) (v : Settings.pyval) :
  Settings.set_walk h settings keys last_key v = (h', false) -> h' = h.
Proof.
  revert settings. induction keys as [|k more IH]; intros settings;
    cbn [Settings.set_walk]; destruct settings as [| | | | |a];
    try (now intros [= <-]);
    destruct (nth_error h a) as [d|] eqn:Ha; try (now intros [= <-]).
  destruct (dict_get d k) as [next|] eqn:Hk; [apply IH|].
  intros H.
    pose proof (@set_walk_fresh more _ _ last_key v
                  (proj1 (proj2 (@created_lookup h a d k 0 Ha)))) as Hok.
    rewrite H in Hok. discriminate.
Qed.

Lemma ranked_created (h : Settings.heap) (rank : nat -> nat) (b : nat)
    (d : Settings.dict) (k : text) :
  Settings.ranked h rank ->
  nth_error h b = Some d ->
  dict_get d k = None ->
  Settings.ranked (update h b (dict_set d k (Settings.VDict (length h))) ++ [[]])
    (fun x => if x =? length h then S (rank b) else rank x).
Proof.
  intros Hr Hb Hk a d' k' c Ha Hc.
  apply nth_error_in_range in Hb as Hlt.
  destruct (@created_lookup h b d k a Hb) as (Hlen & Hnew & Hat & Hother).
  rewrite Hlen.
  destruct (Nat.eqb_spec b (length h)) as [E|_]; [lia|].
  destruct (Nat.lt_trichotomy a (length h)) as [Hlo|[->|Hhi]].
  - destruct (Nat.eqb_spec a (length h)) as [E|_]; [lia|].
    destruct (Nat.eq_dec a b) as [->|Hne].
    + rewrite Hat in Ha. injection Ha as <-.
      destruct (list_eq_dec ascii_dec k' k) as [->|Hkk].
      * rewrite dict_get_set_same in Hc. injection Hc as <-.
        rewrite Nat.eqb_refl. lia.
      * rewrite dict_get_set_other in Hc by assumption.
        destruct (Hr _ _ _ _ Hb Hc) as [Hc1 Hc2].
        destruct (Nat.eqb_spec c (length h)); lia.
    + rewrite Hother in Ha by assumption.
      destruct (Hr _ _ _ _ Ha Hc) as [Hc1 Hc2].
      destruct (Nat.eqb_spec c (length h)); lia.
  - rewrite Hnew in Ha. injection Ha as <-. discriminate.
  - apply nth_error_in_range in Ha. lia.
Qed.

Lemma set_walk_not_dict (keys : list text) (h : Settings.heap)
    (settings : Settings.pyval) (last_key : text) (v : Settings.pyval) :
  Settings.is_dict settings = false ->
  Settings.set_walk h settings keys last_key v = (h, false).
Proof. destruct keys, settings; cbn; congruence. Qed.

(** Writing below the dict at [b] leaves the dicts of lower rank alone. *)
Lemma set_walk_frame (keys : list text) (h h' : Settings.heap)
    (rank : nat -> nat) (b : nat) (last_key : text) (v : Settings.pyval)
    (ok : bool) (x : nat) :
  Settings.ranked h rank ->
  Settings.set_walk h (Settings.VDict b) keys last_key v = (h', ok) ->
  x < length h -> rank x < rank b ->
  nth_error h' x = nth_error h x.
Proof.
  revert h rank b. induction keys as [|k more IH]; intros h rank b Hr;
    cbn [Settings.set_walk];
    destruct (nth_error h b) as [d|] eqn:Hb; try (now intros [= <- _]).
  - intros [= <- _] Hx Hrx. apply nth_error_update_other. intros ->. lia.
  - destruct (dict_get d k) as [next|] eqn:Hk.
    + destruct next as [| | | | |c];
        try (rewrite set_walk_not_dict by reflexivity; now intros [= <- _]).
      intros H Hx Hrx. destruct (Hr _ _ _ _ Hb Hk) as [Hc1 Hc2].
      apply (IH h rank c Hr H Hx). lia.
    + intros H Hx Hrx.
      destruct (@created_lookup h b d k x Hb) as (Hlen & Hnew & Hat & Hother).
      rewrite <- Hother; [|intros ->; lia|assumption].
      apply (IH _ _ _ (@ranked_created h rank b d k Hr Hb Hk) H).
      * lia.
      * destruct (Nat.eqb_spec x (length h)); [lia|].
        rewrite Nat.eqb_refl. lia.
Qed.

(** What [set] has written along a path, [get] reads along the same
    path. *)
Lemma set_walk_then_get_walk (keys : list text) (h h' : Settings.heap)
    (rank : nat -> nat) (settings : Settings.pyval) (last_key : text)
    (v default : Settings.pyval) :
  Settings.ranked h rank ->
  Settings.set_walk h settings keys last_key v = (h', true) ->
  Settings.get_walk h' settings (keys ++ [last_key]) default = v.
Proof.
  revert h rank settings. induction keys as [|k more IH]; intros h rank settings Hr;
    cbn [Settings.set_walk app Settings.get_walk];
    destruct settings as [| | | | |a]; try discriminate;
    cbn [Settings.as_dict];
    destruct (nth_error h a) as [d|] eqn:Ha; try discriminate.
  - intros [= <-]. apply nth_error_in_range in Ha as Hlt.
    rewrite nth_error_update_same by assumption.
    now rewrite dict_get_set_same.
  - apply nth_error_in_range in Ha as Hlt.
    destruct (dict_get d k) as [next|] eqn:Hk.
    + intros H.
      destruct next as [| | | | |c];
        try (rewrite set_walk_not_dict in H by reflexivity; discriminate).
      destruct (Hr _ _ _ _ Ha Hk) as [Hc1 Hc2].
      rewrite (@set_walk_frame more h h' rank c last_key v true a Hr H Hlt Hc2), Ha, Hk.
      now apply (IH h rank).
    + intros H.
      destruct (@created_lookup h a d k a Ha) as (Hlen & Hnew & Hat & Hother).
      assert (Hr1 := @ranked_created h rank a d k Hr Ha Hk).
      rewrite (@set_walk_frame more _ h' _ (length h) last_key v true a Hr1 H).
      * rewrite Hat, dict_get_set_same. now apply (IH _ _ _ Hr1).
      * lia.
      * destruct (Nat.eqb_spec a (length h)); [lia|].
        rewrite Nat.eqb_refl. lia.
Qed.

Lemma dict_get_in (A : Type) (d : list (text * A)) (k : text) (v : A) :
  dict_get d k = Some v -> In (k, v) d.
Proof.
  induction d as [|[k' v'] more IH]; cbn [dict_get]; [discriminate|].
  destruct (list_eq_dec ascii_dec k k') as [->|_].
  - intros [= ->]. now left.
  - intros H. right. auto.
Qed.

Lemma ranked_copy (h : Settings.heap) (rank : nat -> nat) (a : nat) :
  Settings.ranked h rank ->
  Settings.ranked (fst (Settings.copy h a))
    (fun x => if x =? length h then 0 else S (rank x)).
Proof.
  intros Hr x d k b Hx Hb. cbn [fst Settings.copy] in *.
  rewrite length_app. cbn [length].
  destruct (Nat.lt_trichotomy x (length h)) as [Hlo|[->|Hhi]].
  - rewrite nth_error_app1 in Hx by assumption.
    destruct (Hr _ _ _ _ Hx Hb) as [H1 H2].
    destruct (Nat.eqb_spec x (length h)); [lia|].
    destruct (Nat.eqb_spec b (length h)); lia.
  - rewrite nth_error_app2, Nat.sub_diag in Hx by lia. cbn in Hx.
    injection Hx as <-. rewrite Nat.eqb_refl.
    destruct (nth_error h a) as [d|] eqn:Ha; [|discriminate].
    destruct (Hr _ _ _ _ Ha Hb) as [H1 H2].
    destruct (Nat.eqb_spec b (length h)); lia.
  - apply nth_error_in_range in Hx. rewrite length_app in Hx. cbn in Hx. lia.
Qed.

Lemma set_walk_ranked (keys : list text) (h : Settings.heap) (rank : nat -> nat)
    (settings : Settings.pyval) (last_key : text) (v : Settings.pyval) :
  Settings.ranked h rank ->
  Settings.is_dict v = false ->
  exists rank',
    Settings.ranked (fst (Settings.set_walk h settings keys last_key v)) rank'.
Proof.
  intros Hr Hv. revert h rank settings Hr.
  induction keys as [|k more IH]; intros h rank settings Hr;
    cbn [Settings.set_walk]; destruct settings as [| | | | |a];
    try (now exists rank);
    destruct (nth_error h a) as [d|] eqn:Ha; try (now exists rank).
  - exists rank. cbn [fst]. intros x d' k' c Hx Hc.
    rewrite update_length.
    destruct (Nat.eq_dec x a) as [->|Hne].
    + rewrite nth_error_update_same in Hx by now apply nth_error_in_range in Ha.
      injection Hx as <-.
      destruct (list_eq_dec ascii_dec k' last_key) as [->|Hk].
      * rewrite dict_get_set_same in Hc. injection Hc as ->. discriminate.
      * rewrite dict_get_set_other in Hc by assumption. exact (Hr _ _ _ _ Ha Hc).
    + rewrite nth_error_update_other in Hx by assumption. exact (Hr _ _ _ _ Hx Hc).
  - destruct (dict_get d k) as [next|] eqn:Hk.
    + now apply (IH h rank).
    + apply (IH _ _ _ (@ranked_created h rank a d k Hr Ha Hk)).
Qed.

Lemma constructed_acyclic : Settings.acyclic (Settings.store Settings.constructed).
Proof.
  exists (fun a => if a =? 2 then 0 else 1).
  intros a d k b Ha Hb. cbn [Settings.store Settings.constructed length] in *.
  destruct a as [|[|[|[|[|a]]]]]; cbn [nth_error] in Ha; try discriminate;
    injection Ha as <-; apply dict_get_in in Hb; cbn [In] in Hb;
    repeat (destruct Hb as [Hb|Hb]; [try discriminate|]); try contradiction;
    try (injection Hb as _ <-; cbn; lia).
Qed.

(** Every state reached from the constructor by [reset] and by [set] with
    values that are not dict objects has a store without cycles. *)
Lemma reachable_acyclic (calls : list Settings.call) :
  forallb Settings.allowed calls = true ->
  Settings.acyclic (Settings.store (fold_left Settings.perform calls Settings.init)).
Proof.
  assert (Hreset : forall s, Settings.acyclic (Settings.store s) ->
                             Settings.acyclic (Settings.store (Settings.reset s))).
  { intros s [rank Hr]. eexists.
    apply (@ranked_copy _ _ (Settings._defaults s) Hr). }
  assert (G : forall s, Settings.acyclic (Settings.store s) ->
            forallb Settings.allowed calls = true ->
            Settings.acyclic (Settings.store (fold_left Settings.perform calls s))).
  { induction calls as [|c more IH]; intros s Hs Hall; [assumption|].
    cbn [forallb fold_left] in *. apply andb_true_iff in Hall as [Hc Hmore].
    apply IH; [|assumption]. destruct c as [key v|]; cbn [Settings.perform].
    - destruct Hs as [rank Hr]. cbn [Settings.allowed] in Hc.
      apply negb_true_iff in Hc. unfold Settings.set.
      destruct (@set_walk_ranked (removelast (split "." key)) _ _
                  (Settings._settings s) (last (split "." key) []) v Hr Hc)
        as [rank' Hr'].
      destruct (Settings.set_walk _ _ _ _ _) as [h ok]. now exists rank'.
    - now apply Hreset. }
  apply G. apply Hreset, constructed_acyclic.
Qed.

(** X20.  After a [set] that returns, [get] of the same key gives the value that
    was set, in every state reached from the constructor by resets and by
    sets of values that are not dict objects: whether the key is new or
    not, at the top or nested, the intermediate dicts being created on the
    way. *)
Theorem settings_get_after_set (calls : list Settings.call) (key : text)
    (v default : Settings.pyval) :
  forallb Settings.allowed calls = true ->
  let s := fold_left Settings.perform calls Settings.init in
  snd (Settings.set s key v) = true ->
  Settings.get (fst (Settings.set s key v)) key default = v.
Proof.
  intros Hall s Hok. destruct (reachable_acyclic calls Hall) as [rank Hr].
  fold s in Hr. unfold Settings.set, Settings.get in *.
  destruct (Settings.set_walk _ _ _ _ _) as [h ok] eqn:E.
  cbn [fst snd Settings.store Settings._settings] in *. subst ok.
  rewrite (app_removelast_last [] (split_not_nil "." key)) at 1.
  now apply (@set_walk_then_get_walk _ _ _ _ _ _ _ default Hr E).
Qed.

Lemma settings_get_after_set_witness :
  let s := fold_left Settings.perform
             [Settings.Set_ (txt "theme") (Settings.VStr (txt "dark")); Settings.Reset]
             Settings.init in
  Settings.get (fst (Settings.set s (txt "editor.font.size") (Settings.VInt 12)))
    (txt "editor.font.size") Settings.VNone = Settings.VInt 12.
Proof.
  exact (@settings_get_after_set
           [Settings.Set_ (txt "theme") (Settings.VStr (txt "dark")); Settings.Reset]
           (txt "editor.font.size") (Settings.VInt 12) Settings.VNone
           eq_refl eq_refl).
Defined.

Lemma set_walk_blocked (pre more : list text) (h : Settings.heap)
    (settings x : Settings.pyval) (last_key : text) (v : Settings.pyval) :
  Settings.lookup_path h settings pre = Some x ->
  Settings.as_dict h x = None ->
  Settings.set_walk h settings (pre ++ more) last_key v = (h, false).
Proof.
  revert settings. induction pre as [|p pre IH]; intros settings;
    cbn [Settings.lookup_path app].
  - intros [= ->] Hx. destruct more, x as [| | | | |a]; cbn in *; try reflexivity;
      now rewrite Hx.
  - destruct settings as [| | | | |a]; cbn [Settings.as_dict]; try discriminate.
    cbn [Settings.set_walk].
    destruct (nth_error h a) as [d|]; [|discriminate].
    destruct (dict_get d p) as [next|]; [|discriminate]. apply IH.
Qed.

Lemma get_walk_blocked (pre : list text) (k : text) (rest : list text)
    (h : Settings.heap) (settings x default : Settings.pyval) :
  Settings.lookup_path h settings pre = Some x ->
  Settings.as_dict h x = None ->
  Settings.get_walk h settings (pre ++ k :: rest) default = default.
Proof.
  revert settings. induction pre as [|p pre IH]; intros settings;
    cbn [Settings.lookup_path app Settings.get_walk].
  - intros [= ->] Hx. now rewrite Hx.
  - destruct (Settings.as_dict h settings) as [d|]; [|discriminate].
    destruct (dict_get d p) as [next|]; [|discriminate]. apply IH.
Qed.

Lemma removelast_app_cons (A : Type) (l : list A) (x : A) (r : list A) :
  removelast (l ++ x :: r) = l ++ removelast (x :: r).
Proof. apply removelast_app. discriminate. Qed.

(** X21.  A key that runs through a value that is not a dict (a string, a
    number, a list): [get] answers the default, [set] raises and leaves the
    settings exactly as they were. *)
Theorem settings_key_through_non_dict (s : Settings.settings) (key : text)
    (pre : list text) (k : text) (rest : list text)
    (x v default : Settings.pyval) :
  split "."%char key = pre ++ k :: rest ->
  Settings.lookup_path (Settings.store s) (Settings._settings s) pre = Some x ->
  Settings.as_dict (Settings.store s) x = None ->
  Settings.get s key default = default /\
  Settings.set s key v = (s, false).
Proof.
  intros Hkey Hpre Hx. unfold Settings.get, Settings.set. rewrite Hkey. split.
  - now apply (@get_walk_blocked pre k rest _ _ x).
  - rewrite removelast_app_cons.
    rewrite (@set_walk_blocked pre _ _ _ x _ v Hpre Hx). now destruct s.
Qed.

Lemma settings_key_through_non_dict_witness :
  Settings.get Settings.init (txt "theme.color") (Settings.VInt 0) = Settings.VInt 0 /\
  Settings.set Settings.init (txt "theme.color") (Settings.VStr (txt "red")) =
    (Settings.init, false).
Proof.
  apply (@settings_key_through_non_dict Settings.init (txt "theme.color")
           [txt "theme"] (txt "color") [] (Settings.VStr (txt "light")));
    reflexivity.
Defined.

(** X22.  A failing [set] never leaves a half-written path behind: whenever the
    call raises, the settings are unchanged. *)
Theorem settings_failed_set_is_atomic (s : Settings.settings) (key : text)
    (v : Settings.pyval) :
  snd (Settings.set s key v) = false ->
  fst (Settings.set s key v) = s.
Proof.
  unfold Settings.set.
  destruct (Settings.set_walk _ _ _ _ _) as [h ok] eqn:E. cbn [fst snd].
  intros ->. apply set_walk_atomic in E. subst h. now destruct s.
Qed.

Lemma settings_failed_set_is_atomic_witness :
  fst (Settings.set Settings.init (txt "window.width.unit") (Settings.VInt 1)) =
  Settings.init.
Proof.
  exact (@settings_failed_set_is_atomic Settings.init (txt "window.width.unit")
           (Settings.VInt 1) eq_refl).
Defined.

Lemma split_free (sep : ascii) (s : text) :
  existsb (Ascii.eqb sep) s = false -> split sep s = [s].
Proof.
  induction s as [|c r IH]; [reflexivity|].
  cbn [existsb split]. rewrite orb_false_iff. intros [Hc Hr].
  rewrite Ascii.eqb_sym in Hc. rewrite Hc. now rewrite IH.
Qed.

Lemma split_free_app (sep : ascii) (s more : text) :
  existsb (Ascii.eqb sep) s = false ->
  split sep (s ++ sep :: more) = s :: split sep more.
Proof.
  induction s as [|c r IH].
  - intros _. cbn [app split]. now rewrite Ascii.eqb_refl.
  - cbn [existsb app split]. rewrite orb_false_iff. intros [Hc Hr].
    rewrite Ascii.eqb_sym in Hc. rewrite Hc. now rewrite IH.
Qed.

Lemma dot_free_split (k : text) :
  Settings.dot_free k = true -> split "."%char k = [k].
Proof.
  unfold Settings.dot_free. intros H. apply negb_true_iff in H.
  now apply split_free.
Qed.

Lemma dotted_split (section name : text) :
  Settings.dot_free section = true -> Settings.dot_free name = true ->
  split "."%char (section ++ "."%char :: name) = [section; name].
Proof.
  unfold Settings.dot_free. intros H1 H2. apply negb_true_iff in H1, H2.
  rewrite split_free_app by assumption. now rewrite split_free.
Qed.

(** X23.  [reset()] copies the defaults only one level deep.  A value set under
    a section that the defaults define (as [window.width] under [window])
    is written into the dict that the defaults hold, so it is still there
    after [reset()]; a value set at the top level is undone by it. *)
Theorem reset_keeps_nested_settings (s : Settings.settings)
    (section name : text) (defaults inner : Settings.dict) (w : nat)
    (v default : Settings.pyval) :
  Settings.dot_free section = true ->
  Settings.dot_free name = true ->
  nth_error (Settings.store s) (Settings._defaults s) = Some defaults ->
  dict_get defaults section = Some (Settings.VDict w) ->
  nth_error (Settings.store s) w = Some inner ->
  w <> Settings._defaults s ->
  let nested := section ++ "."%char :: name in
  Settings.get (Settings.reset (fst (Settings.set (Settings.reset s) nested v)))
    nested default = v /\
  Settings.get (Settings.reset (fst (Settings.set (Settings.reset s) name v)))
    name default = Settings.get (Settings.reset s) name default.
Proof.
  intros Hsec Hname Hdef Hw Hin Hne nested.
  destruct s as [h st df]. cbn [Settings.store Settings._defaults] in *.
  apply nth_error_in_range in Hdef as Hdf. apply nth_error_in_range in Hin as Hwl.
  assert (Htop : nth_error (h ++ [defaults]) (length h) = Some defaults)
    by now rewrite nth_error_app2, Nat.sub_diag by lia.
  unfold Settings.get, Settings.set, Settings.reset, Settings.copy.
  cbn [Settings.store Settings._defaults Settings._settings fst snd].
  rewrite Hdef. split.
  - unfold nested. rewrite (@dotted_split section name Hsec Hname).
    cbn [removelast last Settings.set_walk]. rewrite Htop, Hw.
    rewrite nth_error_app1, Hin by assumption.
    cbn [fst Settings.store Settings._defaults Settings._settings].
    set (h2 := update (h ++ [defaults]) w (dict_set inner name v)).
    assert (Hd2 : nth_error h2 df = Some defaults).
    { unfold h2. rewrite nth_error_update_other by congruence.
      now rewrite nth_error_app1. }
    assert (Hw2 : nth_error h2 w = Some (dict_set inner name v)).
    { unfold h2. apply nth_error_update_same. rewrite length_app. lia. }
    rewrite Hd2. cbn [Settings.get_walk Settings.as_dict].
    rewrite nth_error_app2, Nat.sub_diag by lia. cbn [nth_error]. rewrite Hw.
    cbn [Settings.as_dict].
    rewrite nth_error_app1 by (apply nth_error_in_range in Hw2; exact Hw2).
    now rewrite Hw2, dict_get_set_same.
  - rewrite (@dot_free_split name Hname).
    cbn [removelast last Settings.set_walk]. rewrite Htop.
    cbn [fst Settings.store Settings._defaults Settings._settings].
    set (h2 := update (h ++ [defaults]) (length h) (dict_set defaults name v)).
    assert (Hd2 : nth_error h2 df = Some defaults).
    { unfold h2. rewrite nth_error_update_other by lia.
      now rewrite nth_error_app1. }
    rewrite Hd2. cbn [Settings.get_walk Settings.as_dict].
    rewrite nth_error_app2, Nat.sub_diag by lia. cbn [nth_error].
    now rewrite Htop.
Qed.

Lemma reset_keeps_nested_settings_witness :
  let nested := txt "window" ++ "."%char :: txt "width" in
  Settings.get
    (Settings.reset (fst (Settings.set (Settings.reset Settings.constructed) nested
                            (Settings.VInt 800))))
    nested Settings.VNone = Settings.VInt 800 /\
  Settings.get
    (Settings.reset (fst (Settings.set (Settings.reset Settings.constructed)
                            (txt "width") (Settings.VInt 800))))
    (txt "width") Settings.VNone =
  Settings.get (Settings.reset Settings.constructed) (txt "width") Settings.VNone.
Proof.
  apply (@reset_keeps_nested_settings Settings.constructed (txt "window") (txt "width")
           (match nth_error (Settings.store Settings.constructed) 2 with
            | Some d => d | None => [] end)
           (match nth_error (Settings.store Settings.constructed) 0 with
            | Some d => d | None => [] end)
           0 (Settings.VInt 800) Settings.VNone);
    try reflexivity.
  discriminate.
Defined.
